(** * scoptics-agent: the chat front end and the database initialisation scripts

    Two parts of the repository are embedded here.

    - [Frontend]: [src/frontend/app.js], the page script that sends the
      analyst's utterances to the agent endpoint and keeps the conversation
      history between calls.  The script is asynchronous: every call of
      [handleQuery] that reaches its [fetch] is suspended at an [await] and
      resumed by the network.  The page is modelled as a record, the suspended
      calls as a list of continuations, and the browser as a list of events
      applied one after the other.
    - [Sql]: [src/infra/init.sql] and its later version
      ([src/unnamed/part_000], "V3.0"), as statement lists run by a small
      interpreter of the PostgreSQL commands they use. *)

From Stdlib Require Import ZArith NArith Ascii String List Lia.
From Stdlib Require Import SpecFloat.
From stdpp Require Import base tactics option list strings gmap.

Open Scope string_scope.
Set Warnings "-register-all".

(** ** JavaScript values *)

Module JS.

(** A JavaScript string is a sequence of UTF-16 code units. *)
Definition jsstring := list N.

(** The code units of an ASCII literal of the source. *)
Definition js (s : string) : jsstring :=
  (fun a => N_of_ascii a) <$> list_ascii_of_string s.

(** ECMAScript [WhiteSpace] and [LineTerminator] code points: the ones that
    [String.prototype.trim] strips.  They all lie in the basic plane, so
    the test is on one code unit. *)
Definition is_white_space (c : N) : bool :=
  ((c =? 0x9) || (c =? 0xA) || (c =? 0xB) || (c =? 0xC) || (c =? 0xD)
   || (c =? 0x20) || (c =? 0xA0) || (c =? 0x1680)
   || ((0x2000 <=? c) && (c <=? 0x200A))
   || (c =? 0x2028) || (c =? 0x2029) || (c =? 0x202F) || (c =? 0x205F)
   || (c =? 0x3000) || (c =? 0xFEFF))%N.

Fixpoint trim_start (s : jsstring) : jsstring :=
  match s with
  | c :: s' => if is_white_space c then trim_start s' else s
  | [] => []
  end.

Definition trim_end (s : jsstring) : jsstring := rev (trim_start (rev s)).

(** [s.trim()] *)
Definition trim (s : jsstring) : jsstring := trim_end (trim_start s).

(** What [JSON.parse] (and so [response.json()]) can produce.  Numbers are
    IEEE 754 doubles; an object is the list of its own properties. *)
Inductive value :=
| Null
| Bool (b : bool)
| Num (f : spec_float)
| Str (s : jsstring)
| Arr (elements : list value)
| Obj (properties : list (jsstring * value)).

(** A property read or a missing member can give [undefined], which is not
    a JSON value: [None] stands for it. *)
Definition jsval := option value.

(** ToBoolean *)
Definition truthy (v : jsval) : bool :=
  match v with
  | None => false
  | Some Null => false
  | Some (Bool b) => b
  | Some (Num (S754_zero _)) => false
  | Some (Num S754_nan) => false
  | Some (Num _) => true
  | Some (Str s) => match s with [] => false | _ => true end
  | Some (Arr _) => true
  | Some (Obj _) => true
  end.

(** [a || b] *)
Definition or_else (a : jsval) (b : value) : value :=
  match a with
  | Some v => if truthy a then v else b
  | None => b
  end.

(** A computation that may throw.  The handler of [app.js] reads only
    [error.message], so an exception is its message. *)
Inductive result (A : Type) :=
| Ok (a : A)
| Throw (message : jsstring).
Arguments Ok {A} a.
Arguments Throw {A} message.

#[global] Instance result_bind : MBind result := fun A B k r =>
  match r with
  | Ok a => k a
  | Throw m => Throw m
  end.

Fixpoint lookup_property (k : jsstring) (ps : list (jsstring * value)) : jsval :=
  match ps with
  | [] => None
  | (k', v) :: ps' => if decide (k = k') then Some v else lookup_property k ps'
  end.

(** What the script needs of the JavaScript engine and is not written in
    the repository: conversions of values that are not strings, the
    pretty-printer, and the wording of the engine's own exceptions. *)
Class Engine := {
  (** ToString of a value that is not a string; it can throw, for an
      object whose own [toString] and [valueOf] members are not callable *)
  to_string_other : value -> result jsstring;
  (** [v > 0] for a value read from a [length] member of an object *)
  greater_than_zero : value -> result bool;
  (** [JSON.stringify(v, null, 2)] *)
  stringify_indented : value -> jsstring;
  (** message of the TypeError raised when property [k] is read from
      [undefined] or [null] *)
  type_error_message : jsval -> jsstring -> jsstring
}.

Section WithEngine.
Context `{Engine}.

(** ToString *)
Definition to_string (v : value) : result jsstring :=
  match v with
  | Str s => Ok s
  | _ => to_string_other v
  end.

(** [o.k] for the member names the script reads ([detail], [response],
    [updated_history], [conversational_response], [data]): none of them is
    inherited from a prototype, so only own properties answer; reading from
    [undefined] or [null] throws. *)
Definition get (o : jsval) (k : jsstring) : result jsval :=
  match o with
  | None | Some Null => Throw (type_error_message o k)
  | Some (Obj ps) => Ok (lookup_property k ps)
  | Some _ => Ok None
  end.

(** [o.length > 0], [o] truthy: arrays and strings have a [length] of their
    own; other primitives have none ([undefined > 0] is false). *)
Definition length_positive (o : value) : result bool :=
  match o with
  | Arr l => Ok (negb (Nat.eqb (length l) 0))
  | Str s => Ok (negb (Nat.eqb (length s) 0))
  | Obj ps => match lookup_property (js "length") ps with
              | Some v => greater_than_zero v
              | None => Ok false
              end
  | _ => Ok false
  end.

End WithEngine.
End JS.

(** ** The page script, [src/frontend/app.js] *)

Module Frontend.
Import JS.

(** What the script builds in the document.  A node filled through
    [textContent] holds its text as data; one filled through [innerHTML]
    holds markup that the browser parses. *)
Inductive node :=
| Element (tag className : string) (children : list node)
| Text (data : jsstring)
| Markup (html : jsstring).

(** The argument of [fetch]; [body] is the value given to
    [JSON.stringify]. *)
Record request := {
  url : string;
  method : string;
  headers : list (string * string);
  body : value
}.

(** A call of [handleQuery] suspended at one of its three [await]s. *)
Inductive activation :=
| AwaitFetch (req : request)   (* line 21, [await fetch(...)] *)
| AwaitErrorBody               (* line 28, [await response.json()], not ok *)
| AwaitBody.                   (* line 32, [await response.json()], ok *)

(** The state the script reads and writes.  The scroll offset set by
    [scrollToBottom] is a layout quantity that nothing reads back; it is
    left out. *)
Record page := {
  queryInput_value : jsstring;
  queryInput_focused : bool;
  submitButton_disabled : bool;
  loader_style_display : string;
  chatContainer : list node;
  chatHistory : value;
  console : list jsstring;
  suspended : list activation
}.

Definition set_value (s : jsstring) (p : page) : page :=
  {| queryInput_value := s; queryInput_focused := queryInput_focused p;
     submitButton_disabled := submitButton_disabled p;
     loader_style_display := loader_style_display p;
     chatContainer := chatContainer p; chatHistory := chatHistory p;
     console := console p; suspended := suspended p |}.

Definition set_focused (b : bool) (p : page) : page :=
  {| queryInput_value := queryInput_value p; queryInput_focused := b;
     submitButton_disabled := submitButton_disabled p;
     loader_style_display := loader_style_display p;
     chatContainer := chatContainer p; chatHistory := chatHistory p;
     console := console p; suspended := suspended p |}.

Definition set_disabled (b : bool) (p : page) : page :=
  {| queryInput_value := queryInput_value p;
     queryInput_focused := queryInput_focused p;
     submitButton_disabled := b;
     loader_style_display := loader_style_display p;
     chatContainer := chatContainer p; chatHistory := chatHistory p;
     console := console p; suspended := suspended p |}.

Definition set_display (d : string) (p : page) : page :=
  {| queryInput_value := queryInput_value p;
     queryInput_focused := queryInput_focused p;
     submitButton_disabled := submitButton_disabled p;
     loader_style_display := d;
     chatContainer := chatContainer p; chatHistory := chatHistory p;
     console := console p; suspended := suspended p |}.

Definition appendChild (n : node) (p : page) : page :=
  {| queryInput_value := queryInput_value p;
     queryInput_focused := queryInput_focused p;
     submitButton_disabled := submitButton_disabled p;
     loader_style_display := loader_style_display p;
     chatContainer := chatContainer p ++ [n]; chatHistory := chatHistory p;
     console := console p; suspended := suspended p |}.

Definition set_chatHistory (h : value) (p : page) : page :=
  {| queryInput_value := queryInput_value p;
     queryInput_focused := queryInput_focused p;
     submitButton_disabled := submitButton_disabled p;
     loader_style_display := loader_style_display p;
     chatContainer := chatContainer p; chatHistory := h;
     console := console p; suspended := suspended p |}.

Definition console_error (m : jsstring) (p : page) : page :=
  {| queryInput_value := queryInput_value p;
     queryInput_focused := queryInput_focused p;
     submitButton_disabled := submitButton_disabled p;
     loader_style_display := loader_style_display p;
     chatContainer := chatContainer p; chatHistory := chatHistory p;
     console := console p ++ [m]; suspended := suspended p |}.

Definition set_suspended (l : list activation) (p : page) : page :=
  {| queryInput_value := queryInput_value p;
     queryInput_focused := queryInput_focused p;
     submitButton_disabled := submitButton_disabled p;
     loader_style_display := loader_style_display p;
     chatContainer := chatContainer p; chatHistory := chatHistory p;
     console := console p; suspended := l |}.

(** The page when [DOMContentLoaded] fires: what the document holds is not
    in the repository, so the children of the chat container and the
    loader's display are taken as given; [chatHistory] starts as [[]]. *)
Definition loaded (children : list node) (display : string) : page :=
  {| queryInput_value := []; queryInput_focused := false;
     submitButton_disabled := false; loader_style_display := display;
     chatContainer := children; chatHistory := Arr [];
     console := []; suspended := [] |}.

Definition API_URL : string := "http://127.0.0.1:8000/agent/query".

Definition dquote : jsstring := [34%N].

Definition displayUserMessage (message : jsstring) (p : page) : page :=
  appendChild (Element "div" "chat-message user-message" [Text message]) p.

(** The template literal of line 77, assigned to [innerHTML]. *)
Definition error_markup (message : jsstring) : jsstring :=
  (js "<p class=" ++ dquote ++ js "error-message" ++ dquote
      ++ js ">Error: " ++ message ++ js "</p>")%list.

Definition displayError (message : jsstring) (p : page) : page :=
  appendChild (Element "div" "chat-message agent-message"
                 [Markup (error_markup message)]) p.

(** The request of lines 21 to 25. *)
Definition agent_request (query : jsstring) (history : value) : request :=
  {| url := API_URL; method := "POST";
     headers := [("Content-Type", "application/json")];
     body := Obj [(js "query", Str query); (js "chat_history", history)] |}.

(** [handleQuery] up to its first [await] (lines 12 to 21): it runs in one
    piece, within the event that called it. *)
Definition handleQuery (p : page) : page :=
  let query := trim (queryInput_value p) in
  match query with
  | [] => p
  | _ :: _ =>
    let p := displayUserMessage query p in
    let p := set_value [] p in
    let p := set_display "block" p in
    let p := set_disabled true p in
    set_suspended (suspended p ++ [AwaitFetch (agent_request query (chatHistory p))]) p
  end.

Section WithEngine.
Context `{Engine}.

Definition displayAgentResponse (response : jsval) (p : page) : result page :=
  conv ← get response (js "conversational_response");
  text ← (if truthy conv
           then match conv with
                | Some v => s ← to_string v; Ok [Element "p" EmptyString [Text s]]
                | None => Ok []
                end
           else Ok []);
  data ← get response (js "data");
  card ← (if truthy data
           then match data with
                | Some d =>
                  b ← length_positive d;
                  Ok (if b : bool
                      then [Element "div" "data-card" [Text (stringify_indented d)]]
                      else [])
                | None => Ok []
                end
           else Ok []);
  Ok (appendChild (Element "div" "chat-message agent-message" (text ++ card)) p).

(** Lines 28 and 29: the body of a response that is not ok has been parsed
    to [errorData]; the block always throws. *)
Definition throw_api_error (errorData : value) : jsstring :=
  match (detail ← get (Some errorData) (js "detail");
         to_string (or_else detail (Str (js "An API error occurred."))))
  with
  | Ok message => message
  | Throw message => message
  end.

(** Lines 32 to 34: the body of an ok response has been parsed to [data].
    The page reached when the block ends or throws, and the message of
    what it threw. *)
Definition accept_response (data : value) (p : page) : page * option jsstring :=
  match get (Some data) (js "response") with
  | Throw m => (p, Some m)
  | Ok response =>
    match get response (js "updated_history") with
    | Throw m => (p, Some m)
    | Ok updated_history =>
      let p := set_chatHistory (or_else updated_history (Arr [])) p in
      match displayAgentResponse response p with
      | Ok p' => (p', None)
      | Throw m => (p, Some m)
      end
    end
  end.

(** Lines 35 to 37 *)
Definition catch (message : jsstring) (p : page) : page :=
  displayError message (console_error message p).

(** Lines 38 to 42 *)
Definition finally (p : page) : page :=
  set_focused true (set_disabled false (set_display "none" p)).

(** What the user and the network can do to the page.  A network event
    names the suspended call it resumes by its position. *)
Inductive event :=
| Input (s : jsstring)                          (* the query field is edited *)
| Click                                         (* on the submit button *)
| Keyup (key : jsstring)                        (* in the query field *)
| FetchRejected (i : nat) (message : jsstring)  (* no response *)
| FetchResponded (i : nat) (status : Z)         (* the response head arrived *)
| BodyRejected (i : nat) (message : jsstring)   (* [json()] rejects *)
| BodyParsed (i : nat) (v : value).             (* [json()] resolves *)

(** [response.ok] *)
Definition ok (status : Z) : bool := ((200 <=? status) && (status <=? 299))%Z.

Definition settle (i : nat) (outcome : page * option jsstring) : page :=
  let (p, thrown) := outcome in
  let p := set_suspended (delete i (suspended p)) p in
  finally (match thrown with Some m => catch m p | None => p end).

Definition step (p : page) (e : event) : page :=
  match e with
  | Input s => set_value s p
  | Click =>
    (* a disabled button dispatches no click *)
    if submitButton_disabled p then p else handleQuery p
  | Keyup key =>
    if decide (key = js "Enter") then handleQuery p else p
  | FetchRejected i m =>
    match suspended p !! i with
    | Some (AwaitFetch _) => settle i (p, Some m)
    | _ => p
    end
  | FetchResponded i status =>
    match suspended p !! i with
    | Some (AwaitFetch _) =>
      set_suspended (<[i := if ok status then AwaitBody else AwaitErrorBody]> (suspended p)) p
    | _ => p
    end
  | BodyRejected i m =>
    match suspended p !! i with
    | Some AwaitErrorBody | Some AwaitBody => settle i (p, Some m)
    | _ => p
    end
  | BodyParsed i v =>
    match suspended p !! i with
    | Some AwaitErrorBody => settle i (p, Some (throw_api_error v))
    | Some AwaitBody => settle i (accept_response v p)
    | _ => p
    end
  end.

Definition run (p : page) (es : list event) : page := fold_left step es p.

End WithEngine.

(** An engine to run the examples with.  Every statement below holds for
    all engines; this one only fixes the parts that the examples never
    reach. *)
Definition example_engine : Engine :=
  {| to_string_other := fun _ => Ok (js "[object Object]");
     greater_than_zero := fun _ => Ok false;
     stringify_indented := fun _ => js "{}";
     type_error_message := fun _ k =>
       (js "Cannot read properties of undefined (reading '" ++ k ++ js "')")%list |}.

End Frontend.

(** ** The database scripts, [src/infra/init.sql] and [src/unnamed/part_000] *)

Module Sql.

Inductive sqltype := TEXT | INTEGER | TIMESTAMPTZ | DOUBLE_PRECISION | JSONB.

Record column := {
  col_name : string;
  col_type : sqltype;
  col_not_null : bool;                        (* NOT NULL *)
  col_primary_key : bool;                     (* PRIMARY KEY, on the column *)
  col_references : option (string * string)   (* REFERENCES table(column) *)
}.

Record table_def := {
  tbl_name : string;
  tbl_columns : list column;
  tbl_primary_key : option (list string)      (* PRIMARY KEY (c1, ..., cn) *)
}.

(** A stored value.  A timestamp is a count of microseconds; a [jsonb]
    value is kept as its canonical text, which no statement here looks
    into. *)
Inductive datum :=
| NULL
| Text (s : string)
| Integer (z : Z)
| Timestamptz (microseconds : Z)
| Double (f : spec_float)
| Jsonb (text : string).

(** A row gives one value per column, in the order of the columns. *)
Definition row := list datum.

#[global] Instance spec_float_eq_dec : EqDecision spec_float.
Proof. solve_decision. Defined.

(** Equality as unique indexes see it: on [double precision] the two zeros
    are one value and NaN equals itself; a NULL is equal to nothing. *)
Definition datum_eqb (a b : datum) : bool :=
  match a, b with
  | Text s, Text s' => bool_decide (s = s')
  | Integer z, Integer z' => bool_decide (z = z')
  | Timestamptz t, Timestamptz t' => bool_decide (t = t')
  | Double (S754_zero _), Double (S754_zero _) => true
  | Double f, Double f' => bool_decide (f = f')
  | Jsonb j, Jsonb j' => bool_decide (j = j')
  | _, _ => false
  end.

Fixpoint key_eqb (k k' : list datum) : bool :=
  match k, k' with
  | [], [] => true
  | a :: k, b :: k' => datum_eqb a b && key_eqb k k'
  | _, _ => false
  end.

Definition has_type (ty : sqltype) (v : datum) : bool :=
  match v, ty with
  | NULL, _ => true
  | Text _, TEXT => true
  | Integer z, INTEGER => ((-2147483648 <=? z) && (z <=? 2147483647))%Z
  | Timestamptz _, TIMESTAMPTZ => true
  | Double _, DOUBLE_PRECISION => true
  | Jsonb _, JSONB => true
  | _, _ => false
  end.

(** The columns of the primary key, none when the table declares no key. *)
Definition key_columns (d : table_def) : list string :=
  match tbl_primary_key d with
  | Some cs => cs
  | None => col_name <$> filter (fun c => col_primary_key c = true) (tbl_columns d)
  end.

(** A primary key column is NOT NULL whether it says so or not. *)
Definition not_null (d : table_def) (c : column) : bool :=
  col_not_null c || bool_decide (col_name c ∈ key_columns d).

Fixpoint field (cs : list column) (r : row) (name : string) : option datum :=
  match cs, r with
  | c :: cs', v :: r' =>
    if decide (col_name c = name) then Some v else field cs' r' name
  | _, _ => None
  end.

Definition key_of (d : table_def) (r : row) : option (list datum) :=
  mapM (field (tbl_columns d) r) (key_columns d).

Definition is_null (v : datum) : bool :=
  match v with NULL => true | _ => false end.

Fixpoint values_ok (d : table_def) (cs : list column) (r : row) : bool :=
  match cs, r with
  | [], [] => true
  | c :: cs', v :: r' =>
    has_type (col_type c) v
    && (if not_null d c then negb (is_null v) else true)
    && values_ok d cs' r'
  | _, _ => false
  end.

(** No row of [rows] has the key of [r]; nothing to check without a key. *)
Definition key_free (d : table_def) (rows : list row) (r : row) : bool :=
  match key_columns d with
  | [] => true
  | _ :: _ =>
    match key_of d r with
    | Some k =>
      forallb (fun r' => match key_of d r' with
                         | Some k' => negb (key_eqb k' k)
                         | None => true
                         end) rows
    | None => false
    end
  end.

Record table := {
  tbl_def : table_def;
  tbl_owner : string;
  tbl_rows : list row
}.

Inductive privilege :=
| SELECT | INSERT | UPDATE | DELETE | TRUNCATE | REFERENCES | TRIGGER
| CONNECT | TEMPORARY | CREATE | USAGE.

(** All tables of the scripts are in the schema [public], the only schema
    they name; a table is known by its name there. *)
Inductive object :=
| Database (name : string)
| Schema (name : string)
| Table (name : string).

#[global] Instance privilege_eq_dec : EqDecision privilege.
Proof. solve_decision. Defined.
#[global] Instance object_eq_dec : EqDecision object.
Proof. solve_decision. Defined.

(** One entry of an access control list. *)
Record grant := {
  grantee : string;
  on : object;
  priv : privilege
}.

(** One entry of the default privileges: tables that [dp_creator] creates
    in [dp_schema] are born with [dp_priv] granted to [dp_grantee]. *)
Record default_grant := {
  dp_creator : string;
  dp_schema : string;
  dp_grantee : string;
  dp_priv : privilege
}.

Record role := {
  rol_name : string;
  rol_can_login : bool;
  rol_password : option string
}.

Record db := {
  databases : list string;
  schemas : list string;
  roles : list role;
  members : list (string * string);   (* (r, m): role r was granted to m *)
  tables : gmap string table;
  acl : list grant;
  (* what is granted to PUBLIC, that is to every role *)
  public_acl : list (object * privilege);
  default_acl : list default_grant
}.

Definition with_tables (ts : gmap string table) (extra : list grant) (d : db) : db :=
  {| databases := databases d; schemas := schemas d; roles := roles d;
     members := members d; tables := ts; acl := acl d ++ extra;
     public_acl := public_acl d; default_acl := default_acl d |}.

Definition add_grants (gs : list grant) (d : db) : db :=
  with_tables (tables d) gs d.

Definition add_role (r : role) (d : db) : db :=
  {| databases := databases d; schemas := schemas d; roles := roles d ++ [r];
     members := members d; tables := tables d; acl := acl d;
     public_acl := public_acl d; default_acl := default_acl d |}.

Definition add_member (r m : string) (d : db) : db :=
  {| databases := databases d; schemas := schemas d; roles := roles d;
     members := members d ++ [(r, m)]; tables := tables d; acl := acl d;
     public_acl := public_acl d; default_acl := default_acl d |}.

Definition add_default (g : default_grant) (d : db) : db :=
  {| databases := databases d; schemas := schemas d; roles := roles d;
     members := members d; tables := tables d; acl := acl d;
     public_acl := public_acl d; default_acl := default_acl d ++ [g] |}.

Definition database_privilege (p : privilege) : bool :=
  match p with CREATE | CONNECT | TEMPORARY => true | _ => false end.

Definition schema_privilege (p : privilege) : bool :=
  match p with CREATE | USAGE => true | _ => false end.

Definition table_privilege (p : privilege) : bool :=
  match p with
  | SELECT | INSERT | UPDATE | DELETE | TRUNCATE | REFERENCES | TRIGGER => true
  | _ => false
  end.

Definition role_exists (d : db) (n : string) : bool :=
  bool_decide (n ∈ rol_name <$> roles d).

(** [pg_user] lists the roles that can log in. *)
Definition user_exists (d : db) (n : string) : bool :=
  existsb (fun r => bool_decide (rol_name r = n) && rol_can_login r) (roles d).

(** [m] has the privileges of [r]: it is [r], or it was granted a role
    that has them.  [n] bounds the length of the chain. *)
Fixpoint inherits (ms : list (string * string)) (n : nat) (m r : string) : bool :=
  bool_decide (m = r)
  || match n with
     | O => false
     | S n' => existsb (fun e => bool_decide (e.2 = m) && inherits ms n' e.1 r) ms
     end.

(** A table definition that CREATE TABLE accepts: distinct column names, at
    most one primary key, on columns of the table. *)
Definition def_ok (d : table_def) : bool :=
  bool_decide (NoDup (col_name <$> tbl_columns d))
  && match tbl_primary_key d with
     | Some cs =>
       negb (existsb col_primary_key (tbl_columns d))
       && bool_decide (cs ≠ [])
       && bool_decide (NoDup cs)
       && forallb (fun c => bool_decide (c ∈ col_name <$> tbl_columns d)) cs
     | None =>
       bool_decide (length (filter (fun c => col_primary_key c = true) (tbl_columns d)) ≤ 1)%nat
     end.

(** Every REFERENCES names the primary key of a table that exists. *)
Definition references_ok (d : db) (t : table_def) : bool :=
  forallb (fun c => match col_references c with
                    | Some (t', c') =>
                      match tables d !! t' with
                      | Some T => bool_decide (key_columns (tbl_def T) = [c'])
                      | None => false
                      end
                    | None => true
                    end) (tbl_columns t).

(** The privileges a table is born with when [user] creates it. *)
Definition born_with (d : db) (user t : string) : list grant :=
  (fun g => {| grantee := dp_grantee g; on := Table t; priv := dp_priv g |})
    <$> filter (fun g => dp_creator g = user ∧ dp_schema g = "public") (default_acl d).

(** The commands of the two scripts. *)
Inductive statement :=
| CREATE_TABLE (if_not_exists : bool) (t : table_def)
| CREATE_ROLE (name : string) (login : bool) (password : option string)
| GRANT_ON_DATABASE (p : privilege) (database to : string)
| GRANT_ON_SCHEMA (p : privilege) (schema to : string)
| GRANT_ON_ALL_TABLES (p : privilege) (schema to : string)
| ALTER_DEFAULT_PRIVILEGES (schema : string) (p : privilege) (to : string)
| GRANT_ROLE (r to : string)
| DO_IF_NO_USER (usename : string) (body : statement).

(** One statement, run by [user]; [None] is an error, which leaves the
    database as it was.  The checks of whether [user] may run the statement
    are not part of the model: the scripts are run by the role that
    initialises the database. *)
Fixpoint exec (user : string) (s : statement) (d : db) : option db :=
  match s with
  | CREATE_TABLE if_not_exists t =>
    match tables d !! tbl_name t with
    | Some _ => if if_not_exists then Some d else None
    | None =>
      if def_ok t && references_ok d t
      then Some (with_tables
                   (<[tbl_name t := {| tbl_def := t; tbl_owner := user; tbl_rows := [] |}]> (tables d))
                   (born_with d user (tbl_name t)) d)
      else None
    end
  | CREATE_ROLE name login password =>
    if role_exists d name then None
    else Some (add_role {| rol_name := name; rol_can_login := login;
                           rol_password := password |} d)
  | GRANT_ON_DATABASE p database to =>
    if database_privilege p && bool_decide (database ∈ databases d) && role_exists d to
    then Some (add_grants [{| grantee := to; on := Database database; priv := p |}] d)
    else None
  | GRANT_ON_SCHEMA p schema to =>
    if schema_privilege p && bool_decide (schema ∈ schemas d) && role_exists d to
    then Some (add_grants [{| grantee := to; on := Schema schema; priv := p |}] d)
    else None
  | GRANT_ON_ALL_TABLES p schema to =>
    if table_privilege p && bool_decide (schema ∈ schemas d) && role_exists d to
    then Some (add_grants
                 (if decide (schema = "public")
                  then (fun e => {| grantee := to; on := Table e.1; priv := p |})
                         <$> map_to_list (tables d)
                  else []) d)
    else None
  | ALTER_DEFAULT_PRIVILEGES schema p to =>
    if table_privilege p && bool_decide (schema ∈ schemas d) && role_exists d to
    then Some (add_default {| dp_creator := user; dp_schema := schema;
                              dp_grantee := to; dp_priv := p |} d)
    else None
  | GRANT_ROLE r to =>
    if role_exists d r && role_exists d to
       && negb (inherits (members d) (length (members d)) r to)
    then Some (add_member r to d)
    else None
  | DO_IF_NO_USER usename body =>
    if user_exists d usename then Some d else exec user body d
  end.

(** A script stops at its first error. *)
Fixpoint exec_script (user : string) (ss : list statement) (d : db) : option db :=
  match ss with
  | [] => Some d
  | s :: ss' => d' ← exec user s d; exec_script user ss' d'
  end.

(** *** Rows *)

Definition with_rows (t : string) (T : table) (rows : list row) (d : db) : db :=
  with_tables (<[t := {| tbl_def := tbl_def T; tbl_owner := tbl_owner T;
                         tbl_rows := rows |}]> (tables d)) [] d.

(** A row is admitted when it has one value of the right type per column,
    no NULL where NOT NULL or the primary key forbids it. *)
Definition row_ok (t : table_def) (r : row) : bool :=
  values_ok t (tbl_columns t) r.

(** The referenced row exists, for every REFERENCES column of [r] that is
    not NULL. *)
Definition references_met (d : db) (t : table_def) (r : row) : bool :=
  forallb (fun c =>
    match col_references c, field (tbl_columns t) r (col_name c) with
    | Some (t', c'), Some v =>
      is_null v
      || match tables d !! t' with
         | Some T' =>
           existsb (fun r' => match field (tbl_columns (tbl_def T')) r' c' with
                              | Some v' => datum_eqb v' v
                              | None => false
                              end) (tbl_rows T')
         | None => false
         end
    | _, _ => true
    end) (tbl_columns t).

(** The values stored in the columns that reference column [c] of table
    [t]. *)
Definition referrers (d : db) (t c : string) : list datum :=
  e ← map_to_list (tables d);
  col ← tbl_columns (tbl_def e.2);
  if decide (col_references col = Some (t, c))
  then omap (fun r => field (tbl_columns (tbl_def e.2)) r (col_name col)) (tbl_rows e.2)
  else [].

(** Row [old] of table [t] may go, or become [new]: no other row refers to
    a value that would disappear (NO ACTION, the default). *)
Definition release_ok (d : db) (t : table_def) (old : row) (new : option row) : bool :=
  forallb (fun c =>
    match field (tbl_columns t) old (col_name c) with
    | Some v =>
      negb (existsb (datum_eqb v) (referrers d (tbl_name t) (col_name c)))
      || match new with
         | Some r => match field (tbl_columns t) r (col_name c) with
                     | Some v' => datum_eqb v v'
                     | None => false
                     end
         | None => false
         end
    | None => true
    end) (tbl_columns t).

(** What can happen to the database once it is initialised: a role
    creates a table, or rows are written.  A row is named by its position
    in the table. *)
Inductive command :=
| Create (user : string) (t : table_def)
| Insert (t : string) (r : row)
| Update (t : string) (i : nat) (r : row)
| Delete (t : string) (i : nat).

Definition exec_command (c : command) (d : db) : option db :=
  match c with
  | Create user t => exec user (CREATE_TABLE false t) d
  | Insert t r =>
    T ← tables d !! t;
    if row_ok (tbl_def T) r && key_free (tbl_def T) (tbl_rows T) r
       && references_met d (tbl_def T) r
    then Some (with_rows t T (tbl_rows T ++ [r]) d)
    else None
  | Update t i r =>
    T ← tables d !! t;
    old ← tbl_rows T !! i;
    if row_ok (tbl_def T) r && key_free (tbl_def T) (delete i (tbl_rows T)) r
       && references_met d (tbl_def T) r
       && release_ok d (tbl_def T) old (Some r)
    then Some (with_rows t T (<[i := r]> (tbl_rows T)) d)
    else None
  | Delete t i =>
    T ← tables d !! t;
    old ← tbl_rows T !! i;
    if release_ok d (tbl_def T) old None
    then Some (with_rows t T (delete i (tbl_rows T)) d)
    else None
  end.

(** A command that fails changes nothing. *)
Definition apply (d : db) (c : command) : db :=
  default d (exec_command c d).

Definition after (d : db) (cs : list command) : db := fold_left apply cs d.

(** *** The scripts *)

Definition col (name : string) (ty : sqltype) : column :=
  {| col_name := name; col_type := ty; col_not_null := false;
     col_primary_key := false; col_references := None |}.

Definition col_nn (name : string) (ty : sqltype) : column :=
  {| col_name := name; col_type := ty; col_not_null := true;
     col_primary_key := false; col_references := None |}.

Definition col_pk (name : string) (ty : sqltype) : column :=
  {| col_name := name; col_type := ty; col_not_null := false;
     col_primary_key := true; col_references := None |}.

(** [init.sql], lines 15 to 29 *)
Definition tracking : table_def :=
  {| tbl_name := "tracking";
     tbl_columns :=
       [ col_nn "match_id" TEXT; col_nn "frame" INTEGER;
         col_nn "timestamp_iso" TIMESTAMPTZ;
         col "team_id" TEXT; col "player_id" TEXT;
         col "x" DOUBLE_PRECISION; col "y" DOUBLE_PRECISION;
         col "z" DOUBLE_PRECISION; col "speed" DOUBLE_PRECISION;
         col "orientation" DOUBLE_PRECISION ];
     tbl_primary_key := None |}.

(** [init.sql], lines 38 to 52 *)
Definition events : table_def :=
  {| tbl_name := "events";
     tbl_columns :=
       [ col_pk "event_id" TEXT; col_nn "match_id" TEXT;
         col_nn "event_type" TEXT;
         col_nn "start_time" TIMESTAMPTZ; col_nn "end_time" TIMESTAMPTZ;
         col_nn "start_frame" INTEGER; col_nn "end_frame" INTEGER;
         col "team_id" TEXT;
         col "players_involved" JSONB; col "metadata_json" JSONB ];
     tbl_primary_key := None |}.

(** [part_000], lines 10 to 18 *)
Definition match_metadata : table_def :=
  {| tbl_name := "match_metadata";
     tbl_columns :=
       [ col_pk "match_id" TEXT; col "competition_name" TEXT;
         col "home_team_name" TEXT; col "away_team_name" TEXT;
         col "pitch_length_m" DOUBLE_PRECISION;
         col "pitch_width_m" DOUBLE_PRECISION;
         col "additional_info" JSONB ];
     tbl_primary_key := None |}.

(** [part_000], lines 20 to 28 *)
Definition tracking_data : table_def :=
  {| tbl_name := "tracking_data";
     tbl_columns :=
       [ {| col_name := "match_id"; col_type := TEXT; col_not_null := true;
            col_primary_key := false;
            col_references := Some ("match_metadata", "match_id") |};
         col_nn "period" INTEGER; col_nn "frame" INTEGER;
         col_nn "timestamp_iso" TIMESTAMPTZ;
         col "tracked_objects" JSONB; col "frame_metadata" JSONB ];
     tbl_primary_key := Some ["match_id"; "frame"] |}.

Definition ai_agent_readonly : string := "ai_agent_readonly".
Definition ai_user : string := "ai_user".

(** [init.sql], lines 64 to 77, and [part_000], lines 35 to 39 *)
Definition security : list statement :=
  [ CREATE_ROLE ai_agent_readonly false None;
    GRANT_ON_DATABASE CONNECT "scoptics_db" ai_agent_readonly;
    GRANT_ON_SCHEMA USAGE "public" ai_agent_readonly;
    GRANT_ON_ALL_TABLES SELECT "public" ai_agent_readonly;
    ALTER_DEFAULT_PRIVILEGES "public" SELECT ai_agent_readonly ].

Definition create_ai_user : statement :=
  CREATE_ROLE ai_user true (Some "scoptics_password_readonly").

(** [src/infra/init.sql] *)
Definition init_sql : list statement :=
  [ CREATE_TABLE true tracking; CREATE_TABLE true events ]
  ++ security
  ++ [ DO_IF_NO_USER ai_user create_ai_user;
       GRANT_ROLE ai_agent_readonly ai_user ].

(** [src/unnamed/part_000], the "V3.0" script *)
Definition init_v3 : list statement :=
  [ CREATE_TABLE false match_metadata; CREATE_TABLE false tracking_data ]
  ++ security
  ++ [ create_ai_user; GRANT_ROLE ai_agent_readonly ai_user ].

(** A fresh cluster: the database and its [public] schema exist, and
    [postgres] is the role that runs the script.  PUBLIC has what CREATE
    DATABASE gives it: it may connect to the database, make temporary
    tables in it, and look into the schema (before PostgreSQL 15 it could
    also create in the schema). *)
Definition fresh : db :=
  {| databases := ["scoptics_db"]; schemas := ["public"];
     roles := [{| rol_name := "postgres"; rol_can_login := true;
                  rol_password := None |}];
     members := []; tables := ∅; acl := [];
     public_acl := [(Database "scoptics_db", CONNECT);
                    (Database "scoptics_db", TEMPORARY);
                    (Schema "public", USAGE)];
     default_acl := [] |}.

(** What was granted to [r] itself on [o]. *)
Definition granted (d : db) (r : string) (o : object) : list privilege :=
  priv <$> filter (fun g => grantee g = r ∧ on g = o) (acl d).

(** The privileges that a table can carry; its owner has them all. *)
Definition all_table_privileges : list privilege :=
  [SELECT; INSERT; UPDATE; DELETE; TRUNCATE; REFERENCES; TRIGGER].

(** What [r] holds on [o]: what was granted to it, to a role that it was
    granted, or to PUBLIC, and every privilege on a table that it, or a
    role that it was granted, owns.  A superuser passes every check, and
    so does the owner of the database or of the schema on it: the roles
    that the scripts create are neither, and nothing here makes them so. *)
Definition held (d : db) (r : string) (o : object) : list privilege :=
  remove_dups
    ((priv <$> filter (fun g => inherits (members d) (length (members d)) r (grantee g) = true
                                ∧ on g = o) (acl d))
     ++ (snd <$> filter (fun e => e.1 = o) (public_acl d))
     ++ match o with
        | Table t =>
          match tables d !! t with
          | Some T =>
            if inherits (members d) (length (members d)) r (tbl_owner T)
            then all_table_privileges
            else []
          | None => []
          end
        | _ => []
        end).

End Sql.

(** * What the page script does *)

Module FrontendSpec.
Import JS Frontend.

(** The body of a successful response as the script reads it: the
    [updated_history] member of its [response] member, when that member is
    truthy (an array always is, the empty one too). *)
Definition updated_history_of (data : value) : option value :=
  match data with
  | Obj ps =>
    match lookup_property (js "response") ps with
    | Some (Obj rs) =>
      match lookup_property (js "updated_history") rs with
      | Some h => if truthy (Some h) then Some h else None
      | None => None
      end
    | _ => None
    end
  | _ => None
  end.

(** The user's message as [displayUserMessage] adds it to the page. *)
Definition user_message (query : jsstring) : node :=
  Element "div" "chat-message user-message" [Text query].

(** The error as [displayError] adds it to the page. *)
Definition error_message (message : jsstring) : node :=
  Element "div" "chat-message agent-message" [Markup (error_markup message)].

Section WithEngine.
Context `{Engine}.

(** The bodies of the successful responses that the script takes in along
    a trace, oldest first: the values that [response.json()] resolves to
    for a call suspended at line 32. *)
Fixpoint successes (p : page) (es : list event) : list value :=
  match es with
  | [] => []
  | e :: es' =>
    match e with
    | BodyParsed i v =>
      match suspended p !! i with
      | Some AwaitBody => [v]
      | _ => []
      end
    | _ => []
    end ++ successes (step p e) es'
  end.

(** The history that the most recent of these responses brought, [h0] when
    there was none. *)
Definition latest_history (h0 : value) (bodies : list value) : value :=
  fold_left (fun h data => default h (updated_history_of data)) bodies h0.

(** An event that ends a call with an error: the request got no response,
    the body could not be read, or the response was not ok. *)
Definition fails (p : page) (e : event) : bool :=
  match e with
  | FetchRejected i _ =>
    match suspended p !! i with Some (AwaitFetch _) => true | _ => false end
  | BodyRejected i _ =>
    match suspended p !! i with
    | Some AwaitErrorBody | Some AwaitBody => true
    | _ => false
    end
  | BodyParsed i _ =>
    match suspended p !! i with Some AwaitErrorBody => true | _ => false end
  | _ => false
  end.


End WithEngine.

(** A node that the browser shows as it is: no part of it is parsed as
    markup. *)
Fixpoint markup_free (n : node) : bool :=
  match n with
  | Element _ _ children => forallb markup_free children
  | Text _ => true
  | Markup _ => false
  end.

(** The answer as [displayAgentResponse] adds it to the page, for a
    response whose [conversational_response] is the string [text] and
    whose [data] is the array [data]. *)
Definition agent_message `{Engine} (text : jsstring) (data : list value) : node :=
  Element "div" "chat-message agent-message"
    (match text with
     | [] => []
     | _ :: _ => [Element "p" EmptyString [Text text]]
     end
     ++ match data with
        | [] => []
        | _ :: _ => [Element "div" "data-card" [Text (stringify_indented (Arr data))]]
        end)%list.

End FrontendSpec.

(** * What the database scripts set up *)

Module SqlSpec.
Import Sql.
#[local] Open Scope list_scope.

(** Grants, default privileges and memberships name roles that exist:
    PostgreSQL refuses to drop a role that still holds any. *)
Definition wf (d : db) : Prop :=
  (∀ g, g ∈ acl d → role_exists d (grantee g) = true)
  ∧ (∀ g, g ∈ default_acl d → role_exists d (dp_grantee g) = true)
  ∧ (∀ e, e ∈ members d → role_exists d e.2 = true).

(** What a role that only reads may hold: the right to connect to the
    database, the right to look into the schema, and SELECT on tables. *)
Definition reads_only (o : object) (p : privilege) : Prop :=
  (o = Database "scoptics_db" ∧ p = CONNECT)
  ∨ (o = Schema "public" ∧ p = USAGE)
  ∨ (∃ t, o = Table t ∧ p = SELECT).

(** The bound on what a role of the scripts holds: a privilege of a
    reader, a privilege that PUBLIC has, or a privilege on a table that
    one of [owners] owns. *)
Definition at_most_reads (d : db) (owners : list string)
    (o : object) (p : privilege) : Prop :=
  reads_only o p
  ∨ (o, p) ∈ public_acl d
  ∨ ∃ t T, o = Table t ∧ tables d !! t = Some T ∧ tbl_owner T ∈ owners.

(** A table that is declared after the scripts have run. *)
Definition later_table (name : string) : table_def :=
  {| tbl_name := name; tbl_columns := [col_pk "id" TEXT];
     tbl_primary_key := None |}.

(** A cluster with one more role, which can log in and owns nothing. *)
Definition fresh_with (name : string) : db :=
  add_role {| rol_name := name; rol_can_login := true; rol_password := None |}
    fresh.

(** The entries that lines 67, 70, 73 and 77 of [init.sql] add. *)
Definition connect_grant : grant :=
  {| grantee := ai_agent_readonly; on := Database "scoptics_db"; priv := CONNECT |}.

Definition usage_grant : grant :=
  {| grantee := ai_agent_readonly; on := Schema "public"; priv := USAGE |}.

Definition select_grant (t : string) : grant :=
  {| grantee := ai_agent_readonly; on := Table t; priv := SELECT |}.

Definition select_default (user : string) : default_grant :=
  {| dp_creator := user; dp_schema := "public";
     dp_grantee := ai_agent_readonly; dp_priv := SELECT |}.

(** The roles that the scripts create. *)
Definition readonly_role : role :=
  {| rol_name := ai_agent_readonly; rol_can_login := false;
     rol_password := None |}.

Definition ai_user_role : role :=
  {| rol_name := ai_user; rol_can_login := true;
     rol_password := Some "scoptics_password_readonly" |}.

(** The security part of a script has run, by [user], on the database
    [d]: what [d'] holds then. *)
Definition secured (user : string) (d d' : db) : Prop :=
  role_exists d ai_agent_readonly = false
  ∧ tables d' = tables d
  ∧ acl d' = acl d ++ connect_grant :: usage_grant
                        :: ((fun e => select_grant e.1) <$> map_to_list (tables d))
  ∧ default_acl d' = default_acl d ++ [select_default user]
  ∧ members d' = members d ++ [(ai_agent_readonly, ai_user)].

(** The rows [r] and [r'] of a table do not have the same key. *)
Definition differ (t : table_def) (r r' : row) : Prop :=
  match key_of t r, key_of t r' with
  | Some k, Some k' => key_eqb k k' = false
  | _, _ => True
  end.

(** No two rows of [rows] have the same key. *)
Definition unique_keys (t : table_def) (rows : list row) : Prop :=
  ∀ i j r r', rows !! i = Some r → rows !! j = Some r' → i ≠ j → differ t r r'.

(** Every row of the table [T], declared as [tracking_data], names a
    match that the table [M], declared as [match_metadata], has. *)
Definition refers (T M : table) : Prop :=
  ∀ r, r ∈ tbl_rows T →
    ∃ s, field (tbl_columns tracking_data) r "match_id" = Some (Text s)
         ∧ ∃ r', r' ∈ tbl_rows M
                 ∧ field (tbl_columns match_metadata) r' "match_id"
                   = Some (Text s).

(** What a table's declaration guarantees of its rows. *)
Definition sound (T : table) : Prop :=
  Forall (fun r => row_ok (tbl_def T) r = true) (tbl_rows T)
  ∧ (key_columns (tbl_def T) ≠ [] → unique_keys (tbl_def T) (tbl_rows T)).

End SqlSpec.

(** * The page script: theorems *)

Module FrontendTheory.
Import JS Frontend FrontendSpec.
#[local] Open Scope list_scope.

Section WithEngine.
Context `{Engine}.

(** [handleQuery] with a query that is not empty once trimmed. *)
Lemma handleQuery_sends p query :
  trim (queryInput_value p) = query → query ≠ [] →
  handleQuery p
  = set_suspended (suspended p ++ [AwaitFetch (agent_request query (chatHistory p))])
      (set_disabled true (set_display "block" (set_value []
         (displayUserMessage query p)))).
Proof.
  intros Hq Hne. unfold handleQuery. rewrite Hq.
  destruct query; [done | reflexivity].
Qed.

Lemma handleQuery_empty p :
  trim (queryInput_value p) = [] → handleQuery p = p.
Proof. intros Hq. unfold handleQuery. by rewrite Hq. Qed.

Lemma app_singleton_ne {A} (l : list A) x : l ++ [x] ≠ l.
Proof.
  intros Heq. apply (f_equal length) in Heq.
  rewrite length_app in Heq. simpl in Heq. lia.
Qed.

(** C5: when the query field holds nothing but white space, [handleQuery]
    leaves the whole page as it was (no request is suspended, no message is
    added, [chatHistory] is the same), whether it was called by a click or
    by the Enter key; and a call of [handleQuery] that does start a request
    had a query that was not empty once trimmed, which is the query it
    sends. *)
Theorem empty_query_is_dropped (p : page) :
  (trim (queryInput_value p) = [] →
   handleQuery p = p
   ∧ step p Click = p
   ∧ ∀ key, step p (Keyup key) = p)
  ∧ (∀ req, suspended (handleQuery p) = suspended p ++ [AwaitFetch req] →
     trim (queryInput_value p) ≠ []
     ∧ body req = Obj [(js "query", Str (trim (queryInput_value p)));
                       (js "chat_history", chatHistory p)]).
Proof.
  split.
  - intros Hq. pose proof (handleQuery_empty p Hq) as Hp. simpl.
    rewrite Hp. repeat split.
    + by destruct (submitButton_disabled p).
    + intros key. by destruct (decide _).
  - intros req Hreq.
    destruct (trim (queryInput_value p)) as [|c q] eqn:Hq.
    + rewrite (handleQuery_empty p Hq) in Hreq.
      symmetry in Hreq. by apply app_singleton_ne in Hreq.
    + split; [done|].
      rewrite (handleQuery_sends p (c :: q) Hq) in Hreq by done.
      simpl in Hreq. apply app_inv_head in Hreq.
      by injection Hreq as <-.
Qed.

(** ** How a call ends *)

Lemma displayAgentResponse_appends response p p' :
  displayAgentResponse response p = Ok p' →
  ∃ children,
    p' = appendChild (Element "div" "chat-message agent-message" children) p.
Proof.
  unfold displayAgentResponse. intros Hd.
  destruct (get response (js "conversational_response")) as [conv|]; [|done].
  simpl in Hd.
  match type of Hd with mbind _ ?r = _ => destruct r as [text|] end; [|done].
  simpl in Hd.
  destruct (get response (js "data")) as [data|]; [|done].
  simpl in Hd.
  match type of Hd with mbind _ ?r = _ => destruct r as [card|] end; [|done].
  simpl in Hd. injection Hd as <-. by eexists.
Qed.

(** The page that [accept_response] reaches differs from the one it
    started from in [chatHistory] and in the chat container only. *)
Lemma accept_response_frame data p :
  let p' := (accept_response data p).1 in
  queryInput_value p' = queryInput_value p
  ∧ queryInput_focused p' = queryInput_focused p
  ∧ submitButton_disabled p' = submitButton_disabled p
  ∧ loader_style_display p' = loader_style_display p
  ∧ console p' = console p
  ∧ suspended p' = suspended p.
Proof.
  unfold accept_response.
  destruct (get (Some data) (js "response")) as [response|]; [|done].
  destruct (get response (js "updated_history")) as [h|]; [|done].
  destruct (displayAgentResponse _ _) as [p'|] eqn:Hd; [|done].
  apply displayAgentResponse_appends in Hd as [children ->]. done.
Qed.

Lemma settle_suspended i outcome :
  suspended (settle i outcome) = delete i (suspended outcome.1).
Proof. destruct outcome as [p [m|]]; reflexivity. Qed.

Lemma settle_chatHistory i outcome :
  chatHistory (settle i outcome) = chatHistory outcome.1.
Proof. destruct outcome as [p [m|]]; reflexivity. Qed.


Lemma settle_thrown i p message :
  let p' := settle i (p, Some message) in
  chatContainer p' = chatContainer p ++ [error_message message]
  ∧ console p' = console p ++ [message]
  ∧ chatHistory p' = chatHistory p
  ∧ queryInput_value p' = queryInput_value p.
Proof. done. Qed.

Lemma handleQuery_request p req :
  suspended (handleQuery p) = suspended p ++ [AwaitFetch req] →
  trim (queryInput_value p) ≠ []
  ∧ req = agent_request (trim (queryInput_value p)) (chatHistory p).
Proof.
  intros Hreq.
  destruct (trim (queryInput_value p)) as [|c q] eqn:Hq.
  - rewrite (handleQuery_empty p Hq) in Hreq.
    symmetry in Hreq. by apply app_singleton_ne in Hreq.
  - split; [done|].
    rewrite (handleQuery_sends p (c :: q) Hq) in Hreq by done.
    simpl in Hreq. apply app_inv_head in Hreq. by injection Hreq as <-.
Qed.

Lemma handleQuery_chatHistory p : chatHistory (handleQuery p) = chatHistory p.
Proof. unfold handleQuery. by destruct (trim _). Qed.

(** The number of suspended calls grows only in [handleQuery]. *)
Lemma step_suspended_length p e :
  match e with
  | Click | Keyup _ => True
  | _ => (length (suspended (step p e)) ≤ length (suspended p))%nat
  end.
Proof.
  destruct e as [s| |key|i m|i status|i m|i v]; cbn [step]; try done.
  - destruct (suspended p !! i) as [[]|] eqn:Hi; try done.
    rewrite settle_suspended. cbn [fst]. rewrite length_delete by eauto. lia.
  - destruct (suspended p !! i) as [[]|]; try done.
    cbn. by rewrite length_insert.
  - destruct (suspended p !! i) as [[]|] eqn:Hi; try done;
      rewrite settle_suspended; cbn [fst]; rewrite length_delete by eauto; lia.
  - destruct (suspended p !! i) as [[]|] eqn:Hi; try done;
      rewrite settle_suspended; cbn [fst].
    + rewrite length_delete by eauto. lia.
    + destruct (accept_response_frame v p) as (_ & _ & _ & _ & _ & ->).
      rewrite length_delete by eauto. lia.
Qed.

(** A request is started by [handleQuery] and by nothing else, and it
    carries the [chatHistory] of the moment. *)
Lemma step_request p e req :
  suspended (step p e) = suspended p ++ [AwaitFetch req] →
  (e = Click ∨ e = Keyup (js "Enter"))
  ∧ trim (queryInput_value p) ≠ []
  ∧ req = agent_request (trim (queryInput_value p)) (chatHistory p).
Proof.
  intros Hreq.
  assert (length (suspended (step p e)) = S (length (suspended p))) as Hlen.
  { rewrite Hreq, length_app. simpl. lia. }
  pose proof (step_suspended_length p e) as Hle.
  destruct e as [s| |key|i m|i status|i m|i v]; try lia.
  - simpl in Hreq. destruct (submitButton_disabled p).
    + symmetry in Hreq. by apply app_singleton_ne in Hreq.
    + destruct (handleQuery_request _ _ Hreq) as [? ?]. auto.
  - simpl in Hreq. destruct (decide (key = js "Enter")) as [->|].
    + destruct (handleQuery_request _ _ Hreq) as [? ?]. auto.
    + symmetry in Hreq. by apply app_singleton_ne in Hreq.
Qed.

(** ** The history *)

Lemma accept_response_history data p h :
  updated_history_of data = Some h →
  chatHistory (accept_response data p).1 = h.
Proof.
  unfold updated_history_of, accept_response. intros Hh.
  destruct data as [| | | | |ps]; try done. simpl.
  destruct (lookup_property (js "response") ps) as [[| | | | |rs]|]; try done.
  simpl.
  destruct (lookup_property (js "updated_history") rs) as [h'|]; [|done].
  destruct (truthy (Some h')) eqn:Ht; [|done]. injection Hh as ->.
  unfold or_else. rewrite Ht.
  destruct (displayAgentResponse _ _) as [p'|] eqn:Hd; [|done].
  by apply displayAgentResponse_appends in Hd as [children ->].
Qed.

(** [chatHistory] is assigned at line 33 and nowhere else. *)
Lemma step_chatHistory p e :
  chatHistory (step p e)
  = match e with
    | BodyParsed i data =>
      match suspended p !! i with
      | Some AwaitBody => chatHistory (accept_response data p).1
      | _ => chatHistory p
      end
    | _ => chatHistory p
    end.
Proof.
  destruct e as [s| |key|i m|i status|i m|i v]; cbn [step]; try done.
  - destruct (submitButton_disabled p); [done|apply handleQuery_chatHistory].
  - destruct (decide _); [apply handleQuery_chatHistory|done].
  - by destruct (suspended p !! i) as [[]|].
  - by destruct (suspended p !! i) as [[]|].
  - by destruct (suspended p !! i) as [[]|].
  - destruct (suspended p !! i) as [[]|]; try done.
    by rewrite settle_chatHistory.
Qed.

Lemma run_chatHistory p es :
  Forall (fun data => is_Some (updated_history_of data)) (successes p es) →
  chatHistory (run p es) = latest_history (chatHistory p) (successes p es).
Proof.
  revert p. induction es as [|e es IH]; intros p Hall; [done|].
  simpl in Hall. apply Forall_app in Hall as [He Hes].
  unfold run, latest_history in *. simpl. rewrite fold_left_app.
  rewrite (IH _ Hes). f_equal. rewrite step_chatHistory.
  destruct e as [s| |key|i m|i status|i m|i v]; try done.
  destruct (suspended p !! i) as [[]|]; try done.
  apply Forall_singleton in He as [h Hh]. simpl. rewrite Hh. simpl.
  by apply accept_response_history.
Qed.

(** ** The claims about calls and their outcomes *)

(** C1: the Enter key starts a second request while the first is still in
    flight.  After a first query is sent from the loaded page the button is
    disabled and one call is suspended at its [fetch]; a click is then
    ignored, but typing a new query and releasing Enter starts a second
    call, so that two requests are in flight, both with the empty
    history. *)
Theorem enter_key_starts_second_request :
  let p1 := run (loaded [] "none") [Input (js "a"); Keyup (js "Enter")] in
  let p2 := run p1 [Input (js "b"); Click] in
  let p3 := run p1 [Input (js "b"); Keyup (js "Enter")] in
  submitButton_disabled p1 = true
  ∧ suspended p1 = [AwaitFetch (agent_request (js "a") (Arr []))]
  ∧ suspended p2 = suspended p1
  ∧ suspended p3 = [AwaitFetch (agent_request (js "a") (Arr []));
                    AwaitFetch (agent_request (js "b") (Arr []))].
Proof. repeat split; vm_compute; reflexivity. Qed.

Lemma run_without_answer p es :
  successes p es = [] → chatHistory (run p es) = chatHistory p.
Proof.
  intros Hs. rewrite run_chatHistory; rewrite Hs; [done|constructor].
Qed.

Lemma run_app p es es' : run p (es ++ es') = run (run p es) es'.
Proof. apply fold_left_app. Qed.

(** C6, as the script has it: a successful response whose body has a
    truthy [response.updated_history] replaces [chatHistory] by it,
    whatever came before, and it stays until the next successful response
    is taken in; before the first one [chatHistory] is the empty array;
    and every request that is started carries the [chatHistory] of the
    moment as its [chat_history] member.  So the request that follows
    such a response sends its [updated_history], and the first request
    sends the empty history. *)
Theorem history_follows_responses children display es :
  let p0 := loaded children display in
  let p := run p0 es in
  (successes p0 es = [] → chatHistory p = Arr [])
  ∧ (∀ es1 i data u es2,
       es = es1 ++ BodyParsed i data :: es2 →
       suspended (run p0 es1) !! i = Some AwaitBody →
       updated_history_of data = Some u →
       successes (step (run p0 es1) (BodyParsed i data)) es2 = [] →
       chatHistory p = u)
  ∧ (∀ e req,
       suspended (step p e) = suspended p ++ [AwaitFetch req] →
       body req = Obj [(js "query", Str (trim (queryInput_value p)));
                       (js "chat_history", chatHistory p)]).
Proof.
  intros p0 p. split_and!.
  - intros Hs. subst p. by rewrite run_without_answer.
  - intros es1 i data u es2 -> Hi Hu Hs. subst p.
    rewrite run_app. change (run (run p0 es1) (BodyParsed i data :: es2))
      with (run (step (run p0 es1) (BodyParsed i data)) es2).
    rewrite run_without_answer by done.
    rewrite step_chatHistory, Hi. by apply accept_response_history.
  - intros e req Hreq. by apply step_request in Hreq as (_ & _ & ->).
Qed.

(** C8, as the script has it: when the response is not ok and its body is
    an object whose [detail] member is a string that is not empty, the
    message thrown is that string, unchanged; it is what is written to the
    console and what [displayError] is given to show. *)
Theorem error_detail_is_shown p i properties detail :
  suspended p !! i = Some AwaitErrorBody →
  lookup_property (js "detail") properties = Some (Str detail) →
  detail ≠ [] →
  let p' := step p (BodyParsed i (Obj properties)) in
  throw_api_error (Obj properties) = detail
  ∧ console p' = console p ++ [detail]
  ∧ chatContainer p' = chatContainer (displayError detail p).
Proof.
  intros Hi Hd Hne p'.
  assert (throw_api_error (Obj properties) = detail) as Ht.
  { unfold throw_api_error. simpl. rewrite Hd. by destruct detail. }
  subst p'. cbn [step]. rewrite Hi, Ht. split; [done|].
  split; apply settle_thrown.
Qed.

(** C10, as the script has it: when the body of a successful response has
    a [response] member that can be read from (it is neither [undefined]
    nor [null]) and whose [updated_history] is not truthy, [chatHistory]
    becomes the empty array. *)
Theorem missing_history_resets p i data response h :
  suspended p !! i = Some AwaitBody →
  get (Some data) (js "response") = Ok response →
  get response (js "updated_history") = Ok h →
  truthy h = false →
  chatHistory (step p (BodyParsed i data)) = Arr [].
Proof.
  intros Hi Hr Hh Ht. rewrite step_chatHistory, Hi.
  unfold accept_response. rewrite Hr, Hh.
  assert (or_else h (Arr []) = Arr []) as ->.
  { unfold or_else. destruct h; [by rewrite Ht|done]. }
  destruct (displayAgentResponse _ _) as [p'|] eqn:Hd; [|done].
  by apply displayAgentResponse_appends in Hd as [children ->].
Qed.

(** ** Calls started by the button *)

(** With the button alone, the page has no call in flight, or one, with
    the button disabled and the loader shown. *)
Lemma step_serial p e :
  e ≠ Keyup (js "Enter") →
  suspended p = []
  ∨ (∃ a, suspended p = [a]) ∧ submitButton_disabled p = true
    ∧ loader_style_display p = "block" →
  suspended (step p e) = []
  ∨ (∃ a, suspended (step p e) = [a]) ∧ submitButton_disabled (step p e) = true
    ∧ loader_style_display (step p e) = "block".
Proof.
  intros He Hp.
  assert (∀ i a, suspended p !! i = Some a → suspended p = [a] ∧ i = 0%nat)
    as Hone.
  { intros i a Hi. destruct Hp as [Hp|[[a' Hp] _]]; rewrite Hp in Hi.
    - done.
    - destruct i; [|done]. simpl in Hi. by simplify_eq. }
  destruct e as [s| |key|i m|i status|i m|i v]; cbn [step].
  - done.
  - destruct (submitButton_disabled p) eqn:Hd;
      [destruct Hp as [Hp|(Ha & _ & Hl)]; [by left|by right]|].
    destruct Hp as [Hp|[_ [? _]]]; [|done].
    destruct (trim (queryInput_value p)) as [|c q] eqn:Hq.
    + rewrite (handleQuery_empty p Hq). by left.
    + rewrite (handleQuery_sends p (c :: q) Hq) by done. simpl. rewrite Hp.
      right. eauto.
  - destruct (decide (key = js "Enter")) as [->|]; done.
  - destruct (suspended p !! i) as [[]|] eqn:Hi; try done.
    left. rewrite settle_suspended. simpl.
    by destruct (Hone _ _ Hi) as [-> ->].
  - destruct (suspended p !! i) as [[]|] eqn:Hi; try done.
    destruct (Hone _ _ Hi) as [Hs ->]. simpl. rewrite Hs. simpl.
    destruct Hp as [Hp|[_ [? ?]]]; [by rewrite Hp in Hs|]. right. eauto.
  - destruct (suspended p !! i) as [[]|] eqn:Hi; try done;
      left; rewrite settle_suspended; simpl;
      by destruct (Hone _ _ Hi) as [-> ->].
  - destruct (suspended p !! i) as [[]|] eqn:Hi; try done;
      left; rewrite settle_suspended; simpl.
    + by destruct (Hone _ _ Hi) as [-> ->].
    + destruct (accept_response_frame v p) as (_ & _ & _ & _ & _ & ->).
      by destruct (Hone _ _ Hi) as [-> ->].
Qed.

Lemma run_serial p es :
  Forall (fun e => e ≠ Keyup (js "Enter")) es →
  suspended p = []
  ∨ (∃ a, suspended p = [a]) ∧ submitButton_disabled p = true
    ∧ loader_style_display p = "block" →
  suspended (run p es) = []
  ∨ (∃ a, suspended (run p es) = [a]) ∧ submitButton_disabled (run p es) = true
    ∧ loader_style_display (run p es) = "block".
Proof.
  intros Hes. revert p.
  induction Hes as [|e es He Hes IH]; intros p Hp; [done|].
  apply IH. by apply step_serial.
Qed.

(** X1: as long as Enter is not used, the button serialises the calls:
    along every trace of events from the loaded page in which no Enter key
    is released, at most one call is in flight, and while one is, the
    submit button is disabled and the loader is shown. *)
Theorem clicks_are_serialised children display es :
  Forall (fun e => e ≠ Keyup (js "Enter")) es →
  let p := run (loaded children display) es in
  (length (suspended p) ≤ 1)%nat
  ∧ (suspended p ≠ [] →
     submitButton_disabled p = true ∧ loader_style_display p = "block").
Proof.
  intros Hes p.
  destruct (run_serial (loaded children display) es Hes) as [Hp|[[a Hp] ?]];
    [by left|..]; fold p in Hp |- *; rewrite Hp; simpl; split; try done; lia.
Qed.


(** ** What is put into the page *)

(** The answer of the agent is put into the page as text. *)
Lemma displayAgentResponse_text response p p' :
  displayAgentResponse response p = Ok p' →
  ∃ n, p' = appendChild n p ∧ markup_free n = true.
Proof.
  unfold displayAgentResponse. intros Hd.
  destruct (get response (js "conversational_response")) as [conv|]; [|done].
  cbn [mbind result_bind] in Hd.
  assert (∀ r : result (list node),
            (∀ l, r = Ok l → forallb markup_free l = true) →
            ∀ (k : list node → result page),
              mbind k r = Ok p' → ∃ l, forallb markup_free l = true ∧ k l = Ok p')
    as Hbind.
  { intros [l|m] Hr k Hk; [|done]. exists l. split; [by apply Hr|done]. }
  apply Hbind in Hd as (text & Htext & Hd).
  2:{ intros l. destruct (truthy conv); [|by intros [= <-]].
      destruct conv as [v|]; [|by intros [= <-]].
      destruct (to_string v); [|done]. by intros [= <-]. }
  destruct (get response (js "data")) as [data|]; [|done].
  cbn [mbind result_bind] in Hd.
  apply Hbind in Hd as (card & Hcard & Hd).
  2:{ intros l. destruct (truthy data); [|by intros [= <-]].
      destruct data as [v|]; [|by intros [= <-]].
      destruct (length_positive v) as [[]|]; [| |done]; by intros [= <-]. }
  injection Hd as <-. eexists. split; [done|]. simpl.
  rewrite forallb_app. by rewrite Htext, Hcard.
Qed.

Lemma step_chatContainer p e :
  ∃ new, chatContainer (step p e) = chatContainer p ++ new
         ∧ Forall (fun n => markup_free n = true ∨ ∃ m, n = error_message m) new.
Proof.
  assert (∃ new, chatContainer p = chatContainer p ++ new
            ∧ Forall (fun n => markup_free n = true ∨ ∃ m, n = error_message m) new)
    as Hsame.
  { exists []. by rewrite app_nil_r. }
  assert (∃ new, chatContainer (handleQuery p) = chatContainer p ++ new
            ∧ Forall (fun n => markup_free n = true ∨ ∃ m, n = error_message m) new)
    as Hquery.
  { destruct (trim (queryInput_value p)) as [|c q] eqn:Hq.
    - by rewrite (handleQuery_empty p Hq).
    - rewrite (handleQuery_sends p (c :: q) Hq) by done. simpl.
      eexists. split; [done|]. constructor; [by left|constructor]. }
  assert (∀ i m, ∃ new,
            chatContainer (settle i (p, Some m)) = chatContainer p ++ new
            ∧ Forall (fun n => markup_free n = true ∨ ∃ m, n = error_message m) new)
    as Hthrown.
  { intros i m. eexists. split; [apply settle_thrown|].
    constructor; [right; by eexists|constructor]. }
  destruct e as [s| |key|i m|i status|i m|i v]; cbn [step]; try done.
  - by destruct (submitButton_disabled p).
  - by destruct (decide _).
  - destruct (suspended p !! i) as [[]|]; done.
  - destruct (suspended p !! i) as [[]|]; done.
  - destruct (suspended p !! i) as [[]|]; done.
  - destruct (suspended p !! i) as [[]|]; try done.
    unfold accept_response.
    destruct (get (Some v) (js "response")) as [response|]; [|done].
    destruct (get response (js "updated_history")) as [h|]; [|done].
    destruct (displayAgentResponse _ _) as [p'|m] eqn:Hd.
    + apply displayAgentResponse_text in Hd as (n & -> & Hn). simpl.
      eexists. split; [done|]. constructor; [by left|constructor].
    + simpl. eexists. split; [done|].
      constructor; [right; by eexists|constructor].
Qed.

(** X3: nothing is ever taken out of the chat container: along every
    trace, what it held stays, in the same order, and what is added after
    it is text, except for the error messages, which are markup. *)
Theorem chat_container_grows p es :
  ∃ new, chatContainer (run p es) = chatContainer p ++ new
         ∧ Forall (fun n => markup_free n = true ∨ ∃ m, n = error_message m) new.
Proof.
  revert p. induction es as [|e es IH]; intros p.
  - exists []. by rewrite app_nil_r.
  - destruct (step_chatContainer p e) as (new & Hnew & Hall).
    destruct (IH (step p e)) as (new' & Hnew' & Hall').
    exists (new ++ new'). unfold run in *. simpl.
    rewrite Hnew', Hnew, app_assoc. split; [done|]. by apply Forall_app.
Qed.

(** ** The query that is sent *)

Lemma trim_start_head s c :
  head (trim_start s) = Some c → is_white_space c = false.
Proof.
  induction s as [|a s IH]; simpl; [done|].
  destruct (is_white_space a) eqn:Ha; [done|]. simpl. by intros [= <-].
Qed.

Lemma trim_start_last s :
  trim_start s ≠ [] → last (trim_start s) = last s.
Proof.
  induction s as [|a s IH]; simpl; [done|].
  destruct (is_white_space a); [|done]. intros Hne. rewrite (IH Hne).
  destruct s as [|b s]; [done|]. by rewrite last_cons_cons.
Qed.

Lemma last_rev {A} (l : list A) : last (rev l) = head l.
Proof. destruct l as [|a l]; [done|]. simpl. apply last_snoc. Qed.

Lemma head_rev {A} (l : list A) : head (rev l) = last l.
Proof. by rewrite <- (rev_involutive l) at 2; rewrite last_rev. Qed.

(** A trimmed string has no white space at either end. *)
Lemma trim_ends s c :
  head (trim s) = Some c ∨ last (trim s) = Some c → is_white_space c = false.
Proof.
  unfold trim, trim_end. rewrite head_rev, last_rev. intros [Hc|Hc].
  - rewrite trim_start_last, last_rev in Hc; [by apply trim_start_head in Hc|].
    intros Hz. by rewrite Hz in Hc.
  - by apply trim_start_head in Hc.
Qed.

(** X4: every request that an event starts is a POST to the agent's
    endpoint with a JSON content type, whose [query] is the content of the
    query field without the white space around it: it is not empty and has
    no white space at either end; its [chat_history] is the history of
    the moment. *)
Theorem request_carries_trimmed_query p e req :
  suspended (step p e) = suspended p ++ [AwaitFetch req] →
  url req = API_URL
  ∧ method req = "POST"
  ∧ headers req = [("Content-Type", "application/json")]
  ∧ ∃ query,
      body req = Obj [(js "query", Str query); (js "chat_history", chatHistory p)]
      ∧ query = trim (queryInput_value p)
      ∧ query ≠ []
      ∧ ∀ c, head query = Some c ∨ last query = Some c →
             is_white_space c = false.
Proof.
  intros (_ & Hne & ->)%step_request. split_and!; try done.
  exists (trim (queryInput_value p)). split_and!; try done.
  apply trim_ends.
Qed.

(** ** The answer *)

(** X5: a response whose [conversational_response] is a string and whose
    [data] is an array is shown as one message: a paragraph with the
    string as text unless it is empty, then a card with the data printed
    as text unless the array is empty. *)
Theorem answer_is_shown properties text data p :
  lookup_property (js "conversational_response") properties = Some (Str text) →
  lookup_property (js "data") properties = Some (Arr data) →
  displayAgentResponse (Some (Obj properties)) p
  = Ok (appendChild (agent_message text data) p).
Proof.
  intros Ht Hd. unfold displayAgentResponse, agent_message. simpl.
  rewrite Ht, Hd. simpl. by destruct text, data.
Qed.

(** Two pages with the same content are the same page. *)
Lemma page_eq p q :
  queryInput_value p = queryInput_value q →
  queryInput_focused p = queryInput_focused q →
  submitButton_disabled p = submitButton_disabled q →
  loader_style_display p = loader_style_display q →
  chatContainer p = chatContainer q →
  chatHistory p = chatHistory q →
  console p = console q →
  suspended p = suspended q →
  p = q.
Proof. destruct p, q. simpl. by intros -> -> -> -> -> -> -> ->. Qed.

Lemma accept_response_answer text data history p :
  accept_response
    (Obj [(js "response",
           Obj [(js "conversational_response", Str text);
                (js "data", Arr data);
                (js "updated_history", Arr history)])]) p
  = (appendChild (agent_message text data) (set_chatHistory (Arr history) p),
     None).
Proof.
  unfold accept_response, get.
  assert (∀ r, lookup_property (js "response") [(js "response", r)] = Some r)
    as -> by (intros r; vm_compute; reflexivity).
  set (properties := [(js "conversational_response", Str text);
                      (js "data", Arr data);
                      (js "updated_history", Arr history)]).
  assert (lookup_property (js "updated_history") properties
          = Some (Arr history)) as -> by (vm_compute; reflexivity).
  rewrite (answer_is_shown properties text data);
    [done|vm_compute; reflexivity..].
Qed.

(** X6: a whole exchange.  With no call in flight, the button enabled and
    a query in the field, a click followed by a 200 response whose body
    is as the interface says takes the page to this one: the field is
    empty and has the focus, the button is enabled, the loader is hidden,
    the chat container has gained the query and the answer, and the
    history is the one that the response brought. *)
Theorem exchange p query text data history :
  suspended p = [] → submitButton_disabled p = false →
  trim (queryInput_value p) = query → query ≠ [] →
  run p [Click; FetchResponded 0 200;
         BodyParsed 0 (Obj [(js "response",
           Obj [(js "conversational_response", Str text);
                (js "data", Arr data);
                (js "updated_history", Arr history)])])]
  = {| queryInput_value := []; queryInput_focused := true;
       submitButton_disabled := false; loader_style_display := "none";
       chatContainer := chatContainer p
                        ++ [user_message query; agent_message text data];
       chatHistory := Arr history; console := console p; suspended := [] |}.
Proof.
  intros Hs Hd Hq Hne. unfold run. cbn [fold_left].
  assert (step p Click
          = set_suspended [AwaitFetch (agent_request query (chatHistory p))]
              (set_disabled true (set_display "block" (set_value []
                 (displayUserMessage query p))))) as ->.
  { cbn [step]. rewrite Hd, (handleQuery_sends p query Hq Hne).
    by rewrite Hs. }
  cbn [step suspended set_suspended lookup list_lookup].
  change (ok 200) with true. cbn [insert list_insert].
  cbn [suspended set_suspended lookup list_lookup].
  rewrite accept_response_answer. unfold settle, finally.
  apply page_eq; try reflexivity.
  transitivity ((chatContainer p ++ [user_message query])
                ++ [agent_message text data]); [reflexivity|].
  by rewrite <- app_assoc.
Qed.

(** ** A call that fails *)

Lemma run_chatContainer p es :
  ∃ new, chatContainer (run p es) = chatContainer p ++ new.
Proof.
  revert p. induction es as [|e es IH]; intros p.
  - exists []. by rewrite app_nil_r.
  - destruct (step_chatContainer p e) as (new & Hnew & _).
    destruct (IH (step p e)) as (new' & Hnew').
    exists (new ++ new'). unfold run in *. simpl.
    by rewrite Hnew', Hnew, app_assoc.
Qed.

Lemma step_starts_call p e req :
  suspended (step p e) = suspended p ++ [AwaitFetch req] →
  chatHistory (step p e) = chatHistory p
  ∧ chatContainer (step p e)
    = chatContainer p ++ [user_message (trim (queryInput_value p))].
Proof.
  intros Hreq. destruct (step_request p e req Hreq) as (He & Hne & _).
  assert (step p e = handleQuery p) as ->.
  { destruct He as [-> | ->]; cbn [step] in *.
    - destruct (submitButton_disabled p); [|done].
      symmetry in Hreq. by apply app_singleton_ne in Hreq.
    - by rewrite decide_True. }
  split; [apply handleQuery_chatHistory|].
  by rewrite (handleQuery_sends p _ eq_refl Hne).
Qed.

(** C7, as the script has it.  A call starts at [e0], other events follow,
    and [e] ends a call with an error (the request got no response, the
    body could not be read, or the response was not ok).  The start of
    the call puts the utterance into the chat container, as text, and
    leaves [chatHistory] alone; the utterance stays in the chat container;
    the event that ends the call adds the error message and leaves
    [chatHistory] as it was just before it; and when no successful
    response was taken in since the call started, [chatHistory] is what it
    was before the call.  [chatHistory] changes only when a successful
    response is taken in: no turn is recorded for an exchange that
    failed. *)
Theorem failed_call_keeps_history p e0 req es e :
  suspended (step p e0) = suspended p ++ [AwaitFetch req] →
  fails (run (step p e0) es) e = true →
  let q := run (step p e0) es in
  let p' := step q e in
  chatHistory (step p e0) = chatHistory p
  ∧ (∃ mid m,
       chatContainer p'
       = chatContainer p ++ [user_message (trim (queryInput_value p))]
         ++ mid ++ [error_message m])
  ∧ chatHistory p' = chatHistory q
  ∧ (successes (step p e0) es = [] → chatHistory p' = chatHistory p)
  ∧ (∀ q' e', chatHistory (step q' e') ≠ chatHistory q' →
       ∃ i data, e' = BodyParsed i data ∧ suspended q' !! i = Some AwaitBody).
Proof.
  intros Hreq Hf q p'. fold q in Hf.
  destruct (step_starts_call p e0 req Hreq) as [Hh0 Hc0].
  assert (chatHistory p' = chatHistory q) as Hh.
  { subst p'. rewrite step_chatHistory.
    destruct e as [s| |key|i m|i status|i m|i v]; try done.
    simpl in Hf. by destruct (suspended q !! i) as [[]|]. }
  split_and!; try done.
  - destruct (run_chatContainer (step p e0) es) as (mid & Hmid). fold q in Hmid.
    assert (∃ m, chatContainer p' = chatContainer q ++ [error_message m])
      as [m Hm].
    { subst p'. destruct e as [s| |key|i m|i status|i m|i v]; try done;
        cbn [step fails] in *; destruct (suspended q !! i) as [[]|]; try done;
        eexists; apply settle_thrown. }
    exists mid, m. rewrite Hm, Hmid, Hc0. by rewrite <- !app_assoc.
  - intros Hs. rewrite Hh. subst q. by rewrite run_without_answer.
  - intros q' e' Hne. rewrite step_chatHistory in Hne.
    destruct e' as [s| |key|i m|i status|i m|i v]; try done.
    destruct (suspended q' !! i) as [[]|] eqn:Hi; try done. eauto.
Qed.

End WithEngine.

Lemma empty_query_is_dropped_witness :
  let p := set_value (js "  ") (loaded [] "none") in
  trim (queryInput_value p) = [] ∧ handleQuery p = p.
Proof.
  split; [reflexivity|].
  apply (proj1 (@empty_query_is_dropped example_engine _)). reflexivity.
Defined.

#[local] Existing Instance example_engine.

Lemma history_follows_responses_witness :
  let turn := Arr [Str (js "hello")] in
  let data := Obj [(js "response", Obj [(js "updated_history", turn)])] in
  let es1 := [Input (js "hello"); Click; FetchResponded 0 200; BodyParsed 0 (Obj []);
              Input (js "hello"); Click; FetchResponded 0 200] in
  suspended (run (loaded [] "none") es1) !! 0%nat = Some AwaitBody
  ∧ updated_history_of data = Some turn
  ∧ chatHistory (run (loaded [] "none") (es1 ++ [BodyParsed 0 data])) = turn.
Proof.
  split; [reflexivity|]. split; [reflexivity|].
  refine (proj1 (proj2 (history_follows_responses [] "none" _))
            [Input (js "hello"); Click; FetchResponded 0 200; BodyParsed 0 (Obj []);
             Input (js "hello"); Click; FetchResponded 0 200]
            0%nat
            (Obj [(js "response",
                   Obj [(js "updated_history", Arr [Str (js "hello")])])])
            (Arr [Str (js "hello")]) [] _ _ _ _); reflexivity.
Defined.

(** A successful response whose [updated_history] is [null] does not
    leave [null] as the history: the empty array is stored, and it is what
    the next request carries. *)
Lemma null_history_is_not_stored :
  let turn := Arr [Str (js "hello")] in
  let data := Obj [(js "response", Obj [(js "updated_history", turn)])] in
  let null := Obj [(js "response", Obj [(js "updated_history", Null)])] in
  let p := run (loaded [] "none")
             [Input (js "hello"); Click; FetchResponded 0 200; BodyParsed 0 data;
              Input (js "more"); Click; FetchResponded 0 200] in
  suspended p !! 0%nat = Some AwaitBody
  ∧ chatHistory p = turn
  ∧ chatHistory (step p (BodyParsed 0 null)) = Arr []
  ∧ chatHistory (step p (BodyParsed 0 null)) ≠ Null
  ∧ suspended (run (step p (BodyParsed 0 null)) [Input (js "again"); Click])
    = [AwaitFetch (agent_request (js "again") (Arr []))].
Proof. split_and!; try reflexivity. intros Heq. discriminate Heq. Qed.

(** After a call that ended with a 500 response the history is still
    empty, and the next request carries the empty history: the first
    utterance is in no turn of it. *)
Lemma failed_call_is_not_recorded :
  let es := [Input (js "hi"); Click; FetchResponded 0 500;
             BodyParsed 0 (Obj [(js "detail", Str (js "boom"))])] in
  let p := run (loaded [] "none") es in
  chatHistory p = Arr []
  ∧ chatContainer p = [user_message (js "hi"); error_message (js "boom")]
  ∧ suspended (run p [Input (js "again"); Click])
    = [AwaitFetch (agent_request (js "again") (Arr []))].
Proof. repeat split. Qed.

Lemma failed_call_keeps_history_witness :
  let p := set_value (js "hi") (loaded [] "none") in
  let req := agent_request (js "hi") (Arr []) in
  let es := [FetchResponded 0 500] in
  let e := BodyParsed 0 (Obj [(js "detail", Str (js "boom"))]) in
  suspended (step p Click) = suspended p ++ [AwaitFetch req]
  ∧ fails (run (step p Click) es) e = true
  ∧ chatHistory (step (run (step p Click) es) e) = chatHistory p.
Proof.
  split; [reflexivity|]. split; [reflexivity|].
  refine (proj1 (proj2 (proj2 (proj2
            (failed_call_keeps_history
               (set_value (js "hi") (loaded [] "none")) Click
               (agent_request (js "hi") (Arr [])) [FetchResponded 0 500]
               (BodyParsed 0 (Obj [(js "detail", Str (js "boom"))])) _ _)))) _);
    reflexivity.
Defined.

(** A [detail] that is the empty string is not what the user sees: the
    fixed text of line 29 is. *)
Lemma empty_detail_is_replaced :
  let errorData := Obj [(js "detail", Str [])] in
  let p := run (loaded [] "none") [Input (js "hi"); Click; FetchResponded 0 500] in
  suspended p !! 0%nat = Some AwaitErrorBody
  ∧ throw_api_error errorData = js "An API error occurred."
  ∧ chatContainer (step p (BodyParsed 0 errorData))
    = [user_message (js "hi"); error_message (js "An API error occurred.")]
  ∧ chatContainer (step p (BodyParsed 0 errorData))
    ≠ [user_message (js "hi"); error_message []].
Proof. repeat split. intros Heq. discriminate Heq. Qed.

Lemma error_detail_is_shown_witness :
  let p := run (loaded [] "none") [Input (js "hi"); Click; FetchResponded 0 404] in
  let properties := [(js "detail", Str (js "Not Found"))] in
  suspended p !! 0%nat = Some AwaitErrorBody
  ∧ throw_api_error (Obj properties) = js "Not Found".
Proof.
  split; [reflexivity|].
  refine (proj1 (error_detail_is_shown
            (run (loaded [] "none") [Input (js "hi"); Click; FetchResponded 0 404])
            0 [(js "detail", Str (js "Not Found"))] (js "Not Found") _ _ _));
    [reflexivity|reflexivity|discriminate].
Defined.

(** A successful response whose body has no [response] member does not
    reset the history: reading [updated_history] from [undefined] throws,
    and [chatHistory] keeps the turns it had. *)
Lemma body_without_response_keeps_history :
  let turn := Arr [Str (js "hello")] in
  let data := Obj [(js "response", Obj [(js "updated_history", turn)])] in
  let p := run (loaded [] "none")
             [Input (js "hello"); Click; FetchResponded 0 200; BodyParsed 0 data;
              Input (js "more"); Click; FetchResponded 0 200] in
  suspended p !! 0%nat = Some AwaitBody
  ∧ updated_history_of (Obj []) = None
  ∧ chatHistory p = turn
  ∧ chatHistory (step p (BodyParsed 0 (Obj []))) = turn
  ∧ chatHistory (step p (BodyParsed 0 (Obj []))) ≠ Arr [].
Proof. repeat split. intros Heq. discriminate Heq. Qed.

Lemma missing_history_resets_witness :
  let turn := Arr [Str (js "hello")] in
  let data := Obj [(js "response", Obj [(js "updated_history", turn)])] in
  let p := run (loaded [] "none")
             [Input (js "hello"); Click; FetchResponded 0 200; BodyParsed 0 data;
              Input (js "more"); Click; FetchResponded 0 200] in
  chatHistory p = turn
  ∧ chatHistory (step p (BodyParsed 0 (Obj [(js "response", Obj [])]))) = Arr [].
Proof.
  split; [reflexivity|].
  refine (missing_history_resets
            (run (loaded [] "none")
               [Input (js "hello"); Click; FetchResponded 0 200;
                BodyParsed 0 (Obj [(js "response",
                  Obj [(js "updated_history", Arr [Str (js "hello")])])]);
                Input (js "more"); Click; FetchResponded 0 200])
            0 (Obj [(js "response", Obj [])]) (Some (Obj [])) None _ _ _ _);
    reflexivity.
Defined.

Lemma clicks_are_serialised_witness :
  let es := [Input (js "a"); Click; Input (js "b"); Click] in
  Forall (fun e => e ≠ Keyup (js "Enter")) es
  ∧ (length (suspended (run (loaded [] "none") es)) ≤ 1)%nat.
Proof.
  assert (Forall (fun e => e ≠ Keyup (js "Enter"))
            [Input (js "a"); Click; Input (js "b"); Click]) as Hes
    by (repeat constructor; discriminate).
  split; [exact Hes|].
  exact (proj1 (clicks_are_serialised [] "none" _ Hes)).
Defined.


Lemma request_carries_trimmed_query_witness :
  let p := set_value (js "  hi ") (loaded [] "none") in
  suspended (step p Click)
  = suspended p ++ [AwaitFetch (agent_request (js "hi") (Arr []))]
  ∧ method (agent_request (js "hi") (Arr [])) = "POST".
Proof.
  split; [reflexivity|].
  refine (proj1 (proj2 (request_carries_trimmed_query
            (set_value (js "  hi ") (loaded [] "none")) Click
            (agent_request (js "hi") (Arr [])) _))).
  reflexivity.
Defined.

Lemma answer_is_shown_witness :
  let properties := [(js "conversational_response", Str (js "Two passes."));
                     (js "data", Arr [Obj []])] in
  displayAgentResponse (Some (Obj properties)) (loaded [] "none")
  = Ok (appendChild (agent_message (js "Two passes.") [Obj []]) (loaded [] "none")).
Proof.
  refine (answer_is_shown
            [(js "conversational_response", Str (js "Two passes."));
             (js "data", Arr [Obj []])]
            (js "Two passes.") [Obj []] (loaded [] "none") _ _);
    reflexivity.
Defined.

Lemma exchange_witness :
  let p := set_value (js "hi") (loaded [] "none") in
  chatHistory
    (run p [Click; FetchResponded 0 200;
            BodyParsed 0 (Obj [(js "response",
              Obj [(js "conversational_response", Str (js "Hello."));
                   (js "data", Arr []);
                   (js "updated_history", Arr [Str (js "hi")])])])])
  = Arr [Str (js "hi")].
Proof.
  refine (f_equal chatHistory
            (exchange (set_value (js "hi") (loaded [] "none")) (js "hi")
               (js "Hello.") [] [Str (js "hi")] _ _ _ _));
    [reflexivity|reflexivity|reflexivity|discriminate].
Defined.

End FrontendTheory.

(** * The database scripts: theorems *)

Module SqlTheory.
Import Sql SqlSpec.
#[local] Open Scope list_scope.

(** ** Roles and grants *)

Lemma role_exists_true d n :
  role_exists d n = true ↔ n ∈ rol_name <$> roles d.
Proof. apply bool_decide_eq_true. Qed.

Lemma role_exists_add_role_old r d n :
  role_exists d n = true → role_exists (add_role r d) n = true.
Proof.
  rewrite !role_exists_true. simpl. rewrite fmap_app, elem_of_app. auto.
Qed.

Lemma role_exists_add_role_new r d :
  role_exists (add_role r d) (rol_name r) = true.
Proof.
  rewrite role_exists_true. simpl. rewrite fmap_app, elem_of_app.
  right. simpl. apply list_elem_of_singleton. done.
Qed.

(** No statement drops a role. *)
Lemma exec_role_exists user s d d' n :
  exec user s d = Some d' → role_exists d n = true → role_exists d' n = true.
Proof.
  revert d d'. induction s as [b t|name login pw|p o g|p o g|p o g|o p g|r g|usename body IH];
    intros d d' He Hn; simpl in He.
  - destruct (tables d !! tbl_name t); [destruct b; by simplify_eq|].
    destruct (_ && _); by simplify_eq.
  - destruct (role_exists d name); [done|]. simplify_eq.
    by apply role_exists_add_role_old.
  - destruct (_ && _); by simplify_eq.
  - destruct (_ && _); by simplify_eq.
  - destruct (_ && _); by simplify_eq.
  - destruct (_ && _); by simplify_eq.
  - destruct (_ && _); by simplify_eq.
  - destruct (user_exists d usename); [by simplify_eq|eauto].
Qed.

Lemma born_with_elem d user t g :
  g ∈ born_with d user t ↔
  ∃ dg, dg ∈ default_acl d ∧ dp_creator dg = user ∧ dp_schema dg = "public"
        ∧ g = {| grantee := dp_grantee dg; on := Table t; priv := dp_priv dg |}.
Proof.
  unfold born_with. rewrite list_elem_of_fmap. split.
  - intros (dg & -> & Hdg). apply list_elem_of_filter in Hdg as [[? ?] ?].
    by exists dg.
  - intros (dg & Hdg & ? & ? & ->). exists dg. split; [done|].
    by apply list_elem_of_filter.
Qed.

(** Every statement keeps the grants on roles that exist. *)
Lemma exec_wf user s d d' : wf d → exec user s d = Some d' → wf d'.
Proof.
  revert d d'. induction s as [b t|name login pw|p o g|p o g|p o g|o p g|r g|usename body IH];
    intros d d' (Ha & Hd & Hm) He; simpl in He.
  - destruct (tables d !! tbl_name t); [destruct b; by simplify_eq|].
    destruct (_ && _); [|done]. simplify_eq. split_and!; unfold role_exists; simpl; [|done..].
    intros g' [Hg|Hg]%elem_of_app; [by apply Ha|].
    apply born_with_elem in Hg as (dg & Hdg & _ & _ & ->). by apply Hd.
  - destruct (role_exists d name); [done|]. simplify_eq.
    split_and!; simpl; intros; apply role_exists_add_role_old; auto.
  - destruct (_ && _ && role_exists d g) eqn:Hc; [|done]. simplify_eq.
    apply andb_true_iff in Hc as [_ Hto]. split_and!; unfold role_exists; simpl; [|done..].
    intros g' [Hg| ->%list_elem_of_singleton]%elem_of_app; simpl;
      by first [apply Ha|apply Hd|apply Hm|exact Hto].
  - destruct (_ && _ && role_exists d g) eqn:Hc; [|done]. simplify_eq.
    apply andb_true_iff in Hc as [_ Hto]. split_and!; unfold role_exists; simpl; [|done..].
    intros g' [Hg| ->%list_elem_of_singleton]%elem_of_app; simpl;
      by first [apply Ha|apply Hd|apply Hm|exact Hto].
  - destruct (_ && _ && role_exists d g) eqn:Hc; [|done]. simplify_eq.
    apply andb_true_iff in Hc as [_ Hto]. split_and!; unfold role_exists; simpl; [|done..].
    intros g' [Hg|Hg]%elem_of_app; [by apply Ha|].
    destruct (decide _); [|by apply elem_of_nil in Hg].
    apply list_elem_of_fmap in Hg as (e' & -> & _). exact Hto.
  - destruct (_ && _ && role_exists d g) eqn:Hc; [|done]. simplify_eq.
    apply andb_true_iff in Hc as [_ Hto]. split_and!; unfold role_exists; simpl; [done| |done].
    intros g' [Hg| ->%list_elem_of_singleton]%elem_of_app; simpl;
      by first [apply Ha|apply Hd|apply Hm|exact Hto].
  - destruct (role_exists d r && role_exists d g && _) eqn:Hc; [|done].
    simplify_eq. apply andb_true_iff in Hc as [[_ Hto]%andb_true_iff _].
    split_and!; unfold role_exists; simpl; [done..|].
    intros e [He| ->%list_elem_of_singleton]%elem_of_app; simpl;
      by first [apply Ha|apply Hd|apply Hm|exact Hto].
  - destruct (user_exists d usename); [by simplify_eq|]. by eapply IH.
Qed.

Lemma exec_script_wf user ss d d' :
  wf d → exec_script user ss d = Some d' → wf d'.
Proof.
  revert d. induction ss as [|s ss IH]; intros d Hwf He; simpl in He.
  - by simplify_eq.
  - destruct (exec user s d) as [d1|] eqn:Hs; [|done]. simpl in He.
    eapply IH; [|done]. by eapply exec_wf.
Qed.

Lemma exec_script_app user ss ss' d d' :
  exec_script user (ss ++ ss') d = Some d' ↔
  ∃ d1, exec_script user ss d = Some d1 ∧ exec_script user ss' d1 = Some d'.
Proof.
  revert d. induction ss as [|s ss IH]; intros d; simpl.
  - split; [eauto|]. by intros (d1 & [= <-] & ?).
  - destruct (exec user s d) as [d2|]; simpl; [apply IH|].
    split; [done|]. by intros (d1 & ? & _).
Qed.

(** ** The security part of the scripts *)

Lemma security_inv user d d' :
  exec_script user security d = Some d' →
  role_exists d ai_agent_readonly = false
  ∧ tables d' = tables d
  ∧ acl d' = acl d ++ connect_grant :: usage_grant
                        :: ((fun e => select_grant e.1) <$> map_to_list (tables d))
  ∧ default_acl d' = default_acl d ++ [select_default user]
  ∧ members d' = members d.
Proof.
  unfold security. cbn [exec_script exec].
  destruct (role_exists d ai_agent_readonly); [done|]. cbn [mbind option_bind].
  destruct (_ && _ && _); [|done]. cbn [mbind option_bind].
  destruct (_ && _ && _); [|done]. cbn [mbind option_bind].
  destruct (_ && _ && _); [|done]. cbn [mbind option_bind].
  destruct (_ && _ && _); [|done]. cbn [mbind option_bind].
  intros [= <-]. split_and!; try done. simpl.
  by rewrite <- !app_assoc.
Qed.

Lemma grant_role_inv user r m d d' :
  exec user (GRANT_ROLE r m) d = Some d' →
  tables d' = tables d ∧ acl d' = acl d ∧ default_acl d' = default_acl d
  ∧ members d' = members d ++ [(r, m)].
Proof. simpl. destruct (_ && _ && _); [|done]. by intros [= <-]. Qed.

Lemma create_role_inv user n login pw d d' :
  exec user (CREATE_ROLE n login pw) d = Some d' →
  role_exists d n = false
  ∧ tables d' = tables d ∧ acl d' = acl d ∧ default_acl d' = default_acl d
  ∧ members d' = members d.
Proof. simpl. destruct (role_exists d n); [done|]. by intros [= <-]. Qed.

Lemma secured_init_sql user d0 d1 :
  exec_script user init_sql d0 = Some d1 →
  ∃ d, exec_script user [CREATE_TABLE true tracking; CREATE_TABLE true events] d0
       = Some d
       ∧ secured user d d1.
Proof.
  unfold init_sql. intros (d & Hd & (d' & Hs & Ht)%exec_script_app)%exec_script_app.
  exists d. split; [done|].
  apply security_inv in Hs as (Hr & Htab & Hacl & Hdef & Hmem).
  cbn [exec_script] in Ht.
  destruct (exec user (DO_IF_NO_USER _ _) d') as [d2|] eqn:Hdo; [|done].
  cbn [mbind option_bind] in Ht.
  destruct (exec user (GRANT_ROLE _ _) d2) as [d3|] eqn:Hg; [|done].
  cbn [mbind option_bind] in Ht. injection Ht as ->.
  apply grant_role_inv in Hg as (Htab' & Hacl' & Hdef' & Hmem').
  assert (tables d2 = tables d' ∧ acl d2 = acl d'
          ∧ default_acl d2 = default_acl d' ∧ members d2 = members d')
    as (Ht2 & Ha2 & Hd2 & Hm2).
  { cbn [exec] in Hdo. destruct (user_exists d' ai_user); [by simplify_eq|].
    apply create_role_inv in Hdo. tauto. }
  unfold secured. rewrite Htab', Hacl', Hdef', Hmem', Ht2, Ha2, Hd2, Hm2.
  by rewrite Htab, Hacl, Hdef, Hmem.
Qed.

Lemma secured_init_v3 user d0 d1 :
  exec_script user init_v3 d0 = Some d1 →
  ∃ d, exec_script user [CREATE_TABLE false match_metadata;
                         CREATE_TABLE false tracking_data] d0
       = Some d
       ∧ role_exists d ai_user = false
       ∧ secured user d d1.
Proof.
  unfold init_v3. intros (d & Hd & (d' & Hs & Ht)%exec_script_app)%exec_script_app.
  exists d. split; [done|].
  assert (∀ n, role_exists d n = true → role_exists d' n = true) as Hmono.
  { clear -Hs. revert d Hs. generalize security.
    induction l as [|s ss IH]; intros d Hs n Hn; simpl in Hs; [by simplify_eq|].
    destruct (exec user s d) as [d2|] eqn:He; [|done].
    eapply IH; [done|]. by eapply exec_role_exists. }
  apply security_inv in Hs as (Hr & Htab & Hacl & Hdef & Hmem).
  cbn [exec_script] in Ht.
  destruct (exec user create_ai_user d') as [d2|] eqn:Hdo; [|done].
  cbn [mbind option_bind] in Ht.
  destruct (exec user (GRANT_ROLE _ _) d2) as [d3|] eqn:Hg; [|done].
  cbn [mbind option_bind] in Ht. injection Ht as ->.
  apply grant_role_inv in Hg as (Htab' & Hacl' & Hdef' & Hmem').
  apply create_role_inv in Hdo as (Hu & Ht2 & Ha2 & Hd2 & Hm2).
  split.
  { destruct (role_exists d ai_user) eqn:Hd'; [|done].
    apply Hmono in Hd'. unfold ai_user in *. congruence. }
  unfold secured. rewrite Htab', Hacl', Hdef', Hmem', Ht2, Ha2, Hd2, Hm2.
  by rewrite Htab, Hacl, Hdef, Hmem.
Qed.

(** ** What the commands that follow can add *)

(** A command grants nothing but what the default privileges give on a
    table it creates, and changes neither the default privileges nor who
    is a member of which role. *)
Lemma apply_grants d c :
  default_acl (apply d c) = default_acl d
  ∧ members (apply d c) = members d
  ∧ ∃ extra, acl (apply d c) = acl d ++ extra
      ∧ ∀ g, g ∈ extra →
          ∃ dg t, dg ∈ default_acl d ∧ dp_schema dg = "public"
                  ∧ g = {| grantee := dp_grantee dg; on := Table t;
                           priv := dp_priv dg |}.
Proof.
  assert (∀ g : grant, g ∈ [] →
            ∃ dg t, dg ∈ default_acl d ∧ dp_schema dg = "public"
                    ∧ g = {| grantee := dp_grantee dg; on := Table t;
                             priv := dp_priv dg |}) as Hnil.
  { by intros g ?%elem_of_nil. }
  unfold apply.
  destruct (exec_command c d) as [d'|] eqn:He; simpl;
    [|split_and!; try done; exists []; by rewrite app_nil_r].
  destruct c as [user t|t r|t i r|t i]; simpl in He.
  - destruct (tables d !! tbl_name t); [done|].
    destruct (_ && _); [|done]. simplify_eq. simpl.
    split_and!; try done. eexists. split; [done|].
    intros g (dg & ? & ? & ? & ->)%born_with_elem. by exists dg, (tbl_name t).
  - destruct (tables d !! t) as [T|]; [|done]. simpl in He.
    destruct (_ && _); [|done]. simplify_eq. simpl. split_and!; eauto.
  - destruct (tables d !! t) as [T|]; [|done]. simpl in He.
    destruct (tbl_rows T !! i); [|done]. simpl in He.
    destruct (_ && _); [|done]. simplify_eq. simpl. split_and!; eauto.
  - destruct (tables d !! t) as [T|]; [|done]. simpl in He.
    destruct (tbl_rows T !! i); [|done]. simpl in He.
    destruct (release_ok _ _ _ _); [|done]. simplify_eq. simpl.
    split_and!; eauto.
Qed.

Lemma after_grants d cs :
  default_acl (after d cs) = default_acl d
  ∧ members (after d cs) = members d
  ∧ ∃ extra, acl (after d cs) = acl d ++ extra
      ∧ ∀ g, g ∈ extra →
          ∃ dg t, dg ∈ default_acl d ∧ dp_schema dg = "public"
                  ∧ g = {| grantee := dp_grantee dg; on := Table t;
                           priv := dp_priv dg |}.
Proof.
  revert d. induction cs as [|c cs IH]; intros d.
  - split_and!; try done. exists []. rewrite app_nil_r. split; [done|].
    by intros g ?%elem_of_nil.
  - unfold after. simpl. fold (after (apply d c) cs).
    destruct (IH (apply d c)) as (Hd & Hm & extra & Ha & Hx).
    destruct (apply_grants d c) as (Hd' & Hm' & extra' & Ha' & Hx').
    rewrite Hd, Hm, Ha, Hd', Hm', Ha'. split_and!; try done.
    exists (extra' ++ extra). rewrite app_assoc. split; [done|].
    intros g [Hg|Hg]%elem_of_app; [by apply Hx'|].
    rewrite Hd' in Hx. by apply Hx.
Qed.

(** A role that was granted no role has its own privileges and no
    others. *)
Lemma inherits_leaf ms n m r :
  (∀ e, e ∈ ms → e.2 ≠ m) →
  inherits ms n m r = bool_decide (m = r).
Proof.
  intros Hm. destruct n as [|n]; simpl; [by rewrite orb_false_r|].
  assert (existsb (fun e => bool_decide (e.2 = m) && inherits ms n e.1 r) ms
          = false) as ->; [|by rewrite orb_false_r].
  apply not_true_iff_false. intros (e & He & Hb)%existsb_exists.
  apply andb_true_iff in Hb as [Hb%bool_decide_eq_true _].
  by apply (Hm e); [apply list_elem_of_In|].
Qed.

Lemma held_elem d r o p :
  p ∈ held d r o ↔
  (∃ g, g ∈ acl d
        ∧ inherits (members d) (length (members d)) r (grantee g) = true
        ∧ on g = o ∧ priv g = p)
  ∨ (o, p) ∈ public_acl d
  ∨ (∃ t T, o = Table t ∧ tables d !! t = Some T
            ∧ inherits (members d) (length (members d)) r (tbl_owner T) = true
            ∧ p ∈ all_table_privileges).
Proof.
  unfold held. rewrite elem_of_remove_dups, !elem_of_app, !list_elem_of_fmap.
  split.
  - intros [(g & -> & [[? ?] ?]%list_elem_of_filter)|[H|H]].
    + left. by exists g.
    + destruct H as ([o' p'] & -> & [Ho He]%list_elem_of_filter).
      simpl in Ho. subst o'. by right; left.
    + right; right. destruct o as [n|n|t]; try by apply elem_of_nil in H.
      destruct (tables d !! t) as [T|] eqn:HT; [|by apply elem_of_nil in H].
      destruct (inherits _ _ r (tbl_owner T)) eqn:Hi;
        [|by apply elem_of_nil in H].
      by exists t, T.
  - intros [(g & ? & ? & ? & <-)|[H|(t & T & -> & HT & Hi & Hp)]].
    + left. exists g. split; [done|]. by apply list_elem_of_filter.
    + right; left. exists (o, p). split; [done|]. by apply list_elem_of_filter.
    + right; right. by rewrite HT, Hi.
Qed.

Lemma held_granted d r g :
  g ∈ acl d →
  inherits (members d) (length (members d)) r (grantee g) = true →
  priv g ∈ held d r (on g).
Proof. intros Hg Hi. apply held_elem. left. by exists g. Qed.

Lemma inherits_refl ms n r : inherits ms n r r = true.
Proof. destruct n; simpl; by rewrite bool_decide_eq_true_2. Qed.

Lemma secured_after user d d1 cs :
  wf d → secured user d d1 →
  let d' := after d1 cs in
  (∀ o p, p ∈ held d' ai_agent_readonly o →
          at_most_reads d' [ai_agent_readonly] o p)
  ∧ (∀ t, is_Some (tables d1 !! t) →
          SELECT ∈ held d' ai_agent_readonly (Table t))
  ∧ (∀ t d'', exec_command (Create user t) d' = Some d'' →
              SELECT ∈ held d'' ai_agent_readonly (Table (tbl_name t)))
  ∧ inherits (members d') (length (members d')) ai_user ai_agent_readonly = true.
Proof.
  intros (Hwa & Hwd & Hwm) (Hnew & Htab & Hacl & Hdef & Hmem) d'.
  destruct (after_grants d1 cs) as (Hd' & Hm' & extra & Ha' & Hx). fold d' in Hd', Hm', Ha'.
  assert (∀ e, e ∈ members d' → e.2 ≠ ai_agent_readonly) as Hleaf.
  { intros e. rewrite Hm', Hmem.
    intros [He| ->%list_elem_of_singleton]%elem_of_app; [|done].
    intros Heq. apply Hwm in He. congruence. }
  split_and!.
  - intros o p [(g & Hg & Hi & <- & <-)|[Hp|(t & T & -> & HT & Hi & _)]]%held_elem.
    + left. rewrite inherits_leaf in Hi by done. apply bool_decide_eq_true in Hi.
      rewrite Ha', Hacl in Hg.
      apply elem_of_app in Hg as [Hg|Hg].
      * apply elem_of_app in Hg as [Hg|Hg].
        -- apply Hwa in Hg. congruence.
        -- apply elem_of_cons in Hg as [->|Hg]; [left; done|].
           apply elem_of_cons in Hg as [->|Hg]; [right; left; done|].
           apply list_elem_of_fmap in Hg as (e & -> & _).
           right; right. by eexists.
      * apply Hx in Hg as (dg & t & Hdg & _ & ->). simpl in *.
        rewrite Hdef in Hdg.
        apply elem_of_app in Hdg as [Hdg| ->%list_elem_of_singleton].
        -- apply Hwd in Hdg. congruence.
        -- right; right. by eexists.
    + by right; left.
    + right; right. exists t, T. split_and!; try done.
      rewrite inherits_leaf in Hi by done. apply bool_decide_eq_true in Hi.
      rewrite <- Hi. by apply list_elem_of_singleton.
  - intros t [T HT]. apply (held_granted d' _ (select_grant t));
      [|apply inherits_refl].
    rewrite Ha', Hacl. apply elem_of_app. left. apply elem_of_app. right.
    do 2 apply list_elem_of_further. apply list_elem_of_fmap.
    exists (t, T). split; [done|]. apply elem_of_map_to_list. by rewrite <- Htab.
  - intros t d'' He. simpl in He.
    destruct (tables d' !! tbl_name t); [done|].
    destruct (_ && _); [|done]. injection He as <-.
    apply (held_granted _ _ (select_grant (tbl_name t)));
      [|apply inherits_refl]. simpl.
    apply elem_of_app. right. apply born_with_elem.
    exists (select_default user). split_and!; try done.
    rewrite Hd', Hdef. apply elem_of_app. right. by apply list_elem_of_singleton.
  - rewrite Hm', Hmem, length_app. simpl. rewrite Nat.add_1_r. simpl.
    apply existsb_exists.
    exists (ai_agent_readonly, ai_user). split.
    + apply in_or_app. right. by left.
    + apply andb_true_iff. split; [by apply bool_decide_eq_true|apply inherits_refl].
Qed.

Lemma wf_fresh : wf fresh.
Proof. split_and!; by intros ? ?%elem_of_nil. Defined.

(** C2: a table that another role creates later is closed to the
    read-only role.  Line 77 of [init.sql] (line 39 of the V3 script) sets
    the default privileges of the role that runs the script, [postgres]
    here, and of no other.  When [ingest] then creates [passes] and
    [postgres] creates [shots], the read-only role, and [ai_user] with it,
    holds SELECT on [shots] and nothing at all on [passes], whose owner is
    [ingest] and which no grant names. *)
Theorem later_table_of_another_role_is_closed :
  let later := [Create "ingest" (later_table "passes");
                Create "postgres" (later_table "shots")] in
  let d := after (default fresh (exec_script "postgres" init_sql (fresh_with "ingest")))
             later in
  let d' := after (default fresh (exec_script "postgres" init_v3 (fresh_with "ingest")))
              later in
  is_Some (exec_script "postgres" init_sql (fresh_with "ingest"))
  ∧ is_Some (exec_script "postgres" init_v3 (fresh_with "ingest"))
  ∧ default_acl d = [select_default "postgres"]
  ∧ default_acl d' = [select_default "postgres"]
  ∧ tbl_owner <$> tables d !! "passes" = Some "ingest"
  ∧ filter (fun g => on g = Table "passes") (acl d) = []
  ∧ held d ai_agent_readonly (Table "passes") = []
  ∧ held d ai_user (Table "passes") = []
  ∧ held d' ai_agent_readonly (Table "passes") = []
  ∧ held d' ai_user (Table "passes") = []
  ∧ held d ai_agent_readonly (Table "shots") = [SELECT]
  ∧ held d' ai_agent_readonly (Table "shots") = [SELECT].
Proof. split_and!; vm_compute; eauto. Qed.

(** X15: when either script has run (by any role, on any database whose
    grants name roles that exist), then whatever tables are created and
    whatever rows are written afterwards, every privilege that
    [ai_agent_readonly] holds is CONNECT on the database, USAGE on the
    schema or SELECT on a table, or is one that PUBLIC has, or is on a
    table that the role itself owns: the scripts give it no INSERT,
    UPDATE, DELETE or TRUNCATE on any table and no CREATE on the schema.
    It does hold SELECT on every table that existed when the script ended
    and on every table that the role that ran the script creates later,
    and [ai_user] has the privileges of [ai_agent_readonly]. *)
Theorem readonly_role_reads_only script user d0 d1 cs :
  script = init_sql ∨ script = init_v3 →
  wf d0 →
  exec_script user script d0 = Some d1 →
  let d := after d1 cs in
  (∀ o p, p ∈ held d ai_agent_readonly o →
          at_most_reads d [ai_agent_readonly] o p)
  ∧ (∀ t, is_Some (tables d1 !! t) →
          SELECT ∈ held d ai_agent_readonly (Table t))
  ∧ (∀ t d', exec_command (Create user t) d = Some d' →
             SELECT ∈ held d' ai_agent_readonly (Table (tbl_name t)))
  ∧ inherits (members d) (length (members d)) ai_user ai_agent_readonly = true.
Proof.
  intros [-> | ->] Hwf He.
  - apply secured_init_sql in He as (d & Hd & Hs).
    apply secured_after with (d := d); [|done]. by eapply exec_script_wf.
  - apply secured_init_v3 in He as (d & Hd & _ & Hs).
    apply secured_after with (d := d); [|done]. by eapply exec_script_wf.
Qed.

Lemma readonly_role_reads_only_witness :
  let d1 := default fresh (exec_script "postgres" init_sql fresh) in
  exec_script "postgres" init_sql fresh = Some d1
  ∧ ∀ o p, p ∈ held d1 ai_agent_readonly o →
           at_most_reads d1 [ai_agent_readonly] o p.
Proof.
  split; [vm_compute; reflexivity|].
  refine (proj1 (readonly_role_reads_only init_sql "postgres" fresh
                   (default fresh (exec_script "postgres" init_sql fresh)) []
                   (or_introl eq_refl) wf_fresh _)).
  vm_compute; reflexivity.
Defined.

(** ** Keys *)

Lemma datum_eqb_sym a b : datum_eqb a b = datum_eqb b a.
Proof.
  destruct a as [|s|z|t|f|j], b as [|s'|z'|t'|f'|j']; simpl;
    repeat (match goal with
            | |- context [match ?x with _ => _ end] => is_var x; destruct x
            end; simpl);
    try done; apply bool_decide_ext; naive_solver.
Qed.

Lemma key_eqb_sym k k' : key_eqb k k' = key_eqb k' k.
Proof.
  revert k'. induction k as [|a k IH]; intros [|b k']; simpl; try done.
  by rewrite datum_eqb_sym, IH.
Qed.

(** A value that is not NULL is equal to itself. *)
Lemma datum_eqb_refl v : is_null v = false → datum_eqb v v = true.
Proof.
  destruct v as [|s|z|t|f|j]; simpl; try done; intros _;
    try destruct f; by try apply bool_decide_eq_true.
Qed.

Lemma key_eqb_refl k :
  Forall (fun v => is_null v = false) k → key_eqb k k = true.
Proof.
  induction 1 as [|v k Hv _ IH]; simpl; [done|].
  by rewrite datum_eqb_refl, IH.
Qed.

Lemma differ_sym t r r' : differ t r r' → differ t r' r.
Proof.
  unfold differ. destruct (key_of t r), (key_of t r'); try done.
  by rewrite key_eqb_sym.
Qed.

Lemma key_free_differ t rows r :
  key_columns t ≠ [] → key_free t rows r = true →
  Forall (fun r' => differ t r' r) rows.
Proof.
  unfold key_free, differ. intros Hk Hf.
  destruct (key_columns t); [done|].
  destruct (key_of t r) as [k|]; [|done].
  apply Forall_forall. intros r' Hr'.
  rewrite forallb_forall in Hf. specialize (Hf r').
  destruct (key_of t r') as [k'|]; [|done].
  apply negb_true_iff, Hf. by apply list_elem_of_In.
Qed.

Section Pairs.
Context {A : Type} (R : A → A → Prop) (R_sym : ∀ x y, R x y → R y x).

Lemma pairs_app_one l x :
  ForallOrdPairs R l → Forall (fun y => R y x) l → ForallOrdPairs R (l ++ [x]).
Proof.
  induction 1 as [|a l Ha Hl IH]; intros Hx; simpl.
  - constructor; [constructor|constructor].
  - apply Forall_cons in Hx as [Hax Hx]. constructor; [|auto].
    apply List.Forall_app. split; [done|]. constructor; [done|constructor].
Qed.

Lemma pairs_delete l i :
  ForallOrdPairs R l → ForallOrdPairs R (delete i l).
Proof.
  intros Hl. revert i. induction Hl as [|a l Ha Hl IH]; intros [|i]; simpl.
  - constructor.
  - constructor.
  - done.
  - constructor; [|apply IH].
    rewrite List.Forall_forall in Ha. rewrite List.Forall_forall.
    intros y Hy%list_elem_of_In. apply Ha, list_elem_of_In.
    revert y Hy. apply Forall_forall, Forall_delete. by apply Forall_forall.
Qed.

Lemma pairs_insert l i x :
  ForallOrdPairs R l → Forall (fun y => R y x) (delete i l) →
  ForallOrdPairs R (<[i:=x]> l).
Proof.
  intros Hl. revert i.
  induction Hl as [|a l Ha Hl IH]; intros [|i] Hx; simpl in *.
  - constructor.
  - constructor.
  - constructor; [|done].
    rewrite List.Forall_forall. intros y Hy%list_elem_of_In.
    rewrite Forall_forall in Hx. auto.
  - apply Forall_cons in Hx as [Hax Hx]. constructor; [|by apply IH].
    rewrite List.Forall_forall in Ha. rewrite List.Forall_forall.
    intros y Hy%list_elem_of_In. revert y Hy.
    apply Forall_forall, Forall_insert; [|done].
    apply Forall_forall. intros y Hy. by apply Ha, list_elem_of_In.
Qed.

Lemma pairs_lookup l :
  ForallOrdPairs R l ↔
  ∀ i j x y, l !! i = Some x → l !! j = Some y → i ≠ j → R x y.
Proof.
  split.
  - induction 1 as [|a l Ha Hl IH]; intros i j x y Hi Hj Hij; [done|].
    rewrite List.Forall_forall in Ha.
    destruct i as [|i], j as [|j]; simpl in *; simplify_eq.
    + apply Ha, list_elem_of_In, list_elem_of_lookup. eauto.
    + apply R_sym, Ha, list_elem_of_In, list_elem_of_lookup. eauto.
    + eapply IH; eauto.
  - induction l as [|a l IH]; intros Hl; [constructor|]. constructor.
    + rewrite List.Forall_forall. intros y (j & Hj)%list_elem_of_In%list_elem_of_lookup.
      by apply (Hl 0 (S j)).
    + apply IH. intros i j x y Hi Hj Hij. apply (Hl (S i) (S j)); auto.
Qed.

End Pairs.

(** ** Tables and their rows *)

Lemma unique_keys_pairs t rows :
  unique_keys t rows ↔ ForallOrdPairs (differ t) rows.
Proof.
  rewrite (pairs_lookup (differ t) (differ_sym t)). unfold unique_keys.
  naive_solver.
Qed.

Lemma sound_empty t user :
  sound {| tbl_def := t; tbl_owner := user; tbl_rows := [] |}.
Proof.
  split; simpl; [constructor|]. intros _. apply unique_keys_pairs. constructor.
Qed.

Lemma sound_insert T r :
  sound T →
  row_ok (tbl_def T) r = true →
  key_free (tbl_def T) (tbl_rows T) r = true →
  sound {| tbl_def := tbl_def T; tbl_owner := tbl_owner T;
           tbl_rows := tbl_rows T ++ [r] |}.
Proof.
  intros [Hrows Hkeys] Hr Hk. split; simpl.
  - apply Forall_app. split; [done|]. by constructor.
  - intros Hne. apply unique_keys_pairs, pairs_app_one.
    + by apply unique_keys_pairs, Hkeys.
    + by apply key_free_differ.
Qed.

Lemma sound_update T i r :
  sound T →
  row_ok (tbl_def T) r = true →
  key_free (tbl_def T) (delete i (tbl_rows T)) r = true →
  sound {| tbl_def := tbl_def T; tbl_owner := tbl_owner T;
           tbl_rows := <[i:=r]> (tbl_rows T) |}.
Proof.
  intros [Hrows Hkeys] Hr Hk. split; simpl.
  - by apply Forall_insert.
  - intros Hne. apply unique_keys_pairs, pairs_insert.
    + apply differ_sym.
    + by apply unique_keys_pairs, Hkeys.
    + by apply key_free_differ.
Qed.

Lemma sound_delete T i :
  sound T →
  sound {| tbl_def := tbl_def T; tbl_owner := tbl_owner T;
           tbl_rows := delete i (tbl_rows T) |}.
Proof.
  intros [Hrows Hkeys]. split; simpl.
  - by apply Forall_delete.
  - intros Hne. apply unique_keys_pairs, pairs_delete.
    by apply unique_keys_pairs, Hkeys.
Qed.

(** A command leaves every table in place, with its declaration, and
    keeps what the declaration guarantees. *)
Lemma apply_table d c t T :
  tables d !! t = Some T →
  ∃ T', tables (apply d c) !! t = Some T'
        ∧ tbl_def T' = tbl_def T
        ∧ (sound T → sound T').
Proof.
  intros Ht. unfold apply.
  destruct (exec_command c d) as [d'|] eqn:He; simpl; [|by exists T].
  destruct c as [user t'|t' r|t' i r|t' i]; simpl in He.
  - destruct (tables d !! tbl_name t') eqn:Ht'; [done|].
    destruct (_ && _); [|done]. simplify_eq. simpl.
    exists T. rewrite lookup_insert_ne; [done|]. intros Heq. congruence.
  - destruct (tables d !! t') as [T0|] eqn:Ht'; [|done]. simpl in He.
    destruct (row_ok _ _ && key_free _ _ _ && _) eqn:Hc; [|done].
    simplify_eq. simpl.
    apply andb_true_iff in Hc as [[Hr Hk]%andb_true_iff _].
    destruct (decide (t' = t)) as [->|].
    + rewrite lookup_insert_eq. simplify_eq. eexists. split_and!; try done.
      intros HT. by apply sound_insert.
    + rewrite lookup_insert_ne by done. by exists T.
  - destruct (tables d !! t') as [T0|] eqn:Ht'; [|done]. simpl in He.
    destruct (tbl_rows T0 !! i); [|done]. simpl in He.
    destruct (row_ok _ _ && key_free _ _ _ && _ && _) eqn:Hc; [|done].
    simplify_eq. simpl.
    apply andb_true_iff in Hc as [[[Hr Hk]%andb_true_iff _]%andb_true_iff _].
    destruct (decide (t' = t)) as [->|].
    + rewrite lookup_insert_eq. simplify_eq. eexists. split_and!; try done.
      intros HT. by apply sound_update.
    + rewrite lookup_insert_ne by done. by exists T.
  - destruct (tables d !! t') as [T0|] eqn:Ht'; [|done]. simpl in He.
    destruct (tbl_rows T0 !! i); [|done]. simpl in He.
    destruct (release_ok _ _ _ _); [|done]. simplify_eq. simpl.
    destruct (decide (t' = t)) as [->|].
    + rewrite lookup_insert_eq. simplify_eq. eexists. split_and!; try done.
      intros HT. by apply sound_delete.
    + rewrite lookup_insert_ne by done. by exists T.
Qed.

Lemma after_table d cs t T :
  tables d !! t = Some T →
  ∃ T', tables (after d cs) !! t = Some T'
        ∧ tbl_def T' = tbl_def T
        ∧ (sound T → sound T').
Proof.
  revert d T. induction cs as [|c cs IH]; intros d T Ht; [by exists T|].
  destruct (apply_table d c t T Ht) as (T1 & Ht1 & Hd1 & Hs1).
  destruct (IH _ _ Ht1) as (T2 & Ht2 & Hd2 & Hs2).
  exists T2. split; [done|]. split; [congruence|auto].
Qed.

Lemma create_table_inv user b t d d' :
  exec user (CREATE_TABLE b t) d = Some d' →
  (is_Some (tables d !! tbl_name t) ∧ d' = d)
  ∨ (tables d !! tbl_name t = None
     ∧ tables d' = <[tbl_name t := {| tbl_def := t; tbl_owner := user;
                                      tbl_rows := [] |}]> (tables d)).
Proof.
  simpl. destruct (tables d !! tbl_name t) eqn:Ht.
  - destruct b; [|done]. intros [= <-]. left. eauto.
  - destruct (_ && _); [|done]. intros [= <-]. by right.
Qed.

(** A row that is admitted has, in each column, a value of the column's
    type, and no NULL where the column is NOT NULL or part of the key. *)
Lemma values_ok_field d cs r c :
  values_ok d cs r = true → c ∈ cs → NoDup (col_name <$> cs) →
  ∃ v, field cs r (col_name c) = Some v
       ∧ has_type (col_type c) v = true
       ∧ (not_null d c = true → is_null v = false).
Proof.
  revert r. induction cs as [|c0 cs IH]; intros r Hok Hc Hnd.
  { by apply elem_of_nil in Hc. }
  destruct r as [|v r]; [done|]. simpl in Hok.
  apply andb_true_iff in Hok as [[Hty Hnn]%andb_true_iff Hok].
  apply NoDup_cons in Hnd as [Hc0 Hnd]. simpl.
  apply elem_of_cons in Hc as [->|Hc].
  - rewrite decide_True by done. exists v. split_and!; try done.
    intros Hn. rewrite Hn in Hnn. by apply negb_true_iff.
  - rewrite decide_False; [by apply IH|].
    intros Heq. apply Hc0. rewrite Heq. apply list_elem_of_fmap. eauto.
Qed.

Lemma key_columns_declared t name :
  def_ok t = true → name ∈ key_columns t →
  ∃ c, c ∈ tbl_columns t ∧ col_name c = name.
Proof.
  unfold def_ok, key_columns. intros [_ Hk]%andb_true_iff Hn.
  destruct (tbl_primary_key t) as [cs|].
  - apply andb_true_iff in Hk as [_ Hk]. rewrite forallb_forall in Hk.
    apply list_elem_of_In, Hk, bool_decide_eq_true in Hn.
    apply list_elem_of_fmap in Hn as (c & -> & Hc). eauto.
  - apply list_elem_of_fmap in Hn as (c & -> & [_ Hc]%list_elem_of_filter). eauto.
Qed.

Lemma mapM_Forall {A B} (f : A → option B) (P : B → Prop) l :
  (∀ x, x ∈ l → ∃ y, f x = Some y ∧ P y) →
  ∃ k, mapM f l = Some k ∧ Forall P k.
Proof.
  induction l as [|x l IH]; intros Hl; [by exists []|].
  destruct (Hl x) as (y & Hy & HPy); [by left|].
  destruct IH as (k & Hk & HPk); [intros; apply Hl; by right|].
  exists (y :: k). simpl. rewrite Hy. simpl. rewrite Hk. by split; [|constructor].
Qed.

(** An admitted row has a key, without NULL. *)
Lemma row_ok_key t r :
  def_ok t = true → row_ok t r = true →
  ∃ k, key_of t r = Some k ∧ Forall (fun v => is_null v = false) k.
Proof.
  intros Hdef Hr. apply mapM_Forall. intros name Hn.
  destruct (key_columns_declared t name Hdef Hn) as (c & Hc & <-).
  destruct (values_ok_field t (tbl_columns t) r c Hr Hc) as (v & Hv & _ & Hnn).
  { apply andb_true_iff in Hdef as [Hnd _]. by apply bool_decide_eq_true in Hnd. }
  exists v. split; [done|]. apply Hnn. unfold not_null.
  apply orb_true_iff. right. by apply bool_decide_eq_true.
Qed.

(** In a table with a primary key, two rows with the same key are one
    row. *)
Lemma sound_key_unique T i j r r' :
  def_ok (tbl_def T) = true → key_columns (tbl_def T) ≠ [] → sound T →
  tbl_rows T !! i = Some r → tbl_rows T !! j = Some r' →
  key_of (tbl_def T) r = key_of (tbl_def T) r' → i = j.
Proof.
  intros Hdef Hne [Hrows Hkeys] Hi Hj Heq.
  destruct (decide (i = j)) as [|Hij]; [done|]. exfalso.
  pose proof (Hkeys Hne i j r r' Hi Hj Hij) as Hd. unfold differ in Hd.
  rewrite Forall_forall in Hrows.
  destruct (row_ok_key (tbl_def T) r Hdef) as (k & Hk & Hnn).
  { apply Hrows, list_elem_of_lookup. eauto. }
  rewrite <- Heq, Hk in Hd. rewrite key_eqb_refl in Hd; done.
Qed.

(** ** The tables of [init.sql] *)

(** [init.sql] creates [events] as it declares it when the database has
    no table of that name yet. *)
Lemma init_sql_events user d0 d1 :
  tables d0 !! "events" = None →
  exec_script user init_sql d0 = Some d1 →
  tables d1 !! "events"
  = Some {| tbl_def := events; tbl_owner := user; tbl_rows := [] |}.
Proof.
  intros Hnone (d & Hd & _ & Htab & _)%secured_init_sql. rewrite Htab.
  cbn [exec_script] in Hd.
  destruct (exec user (CREATE_TABLE true tracking) d0) as [da|] eqn:H1; [|done].
  cbn [mbind option_bind] in Hd.
  destruct (exec user (CREATE_TABLE true events) da) as [db|] eqn:H2; [|done].
  cbn [mbind option_bind] in Hd. injection Hd as ->.
  assert (tables da !! "events" = None) as Hda.
  { apply create_table_inv in H1 as [[_ ->]|[_ ->]]; [done|].
    by rewrite lookup_insert_ne. }
  apply create_table_inv in H2 as [[[T HT] _]|[_ ->]].
  - simpl in HT. congruence.
  - apply lookup_insert_eq.
Qed.

(** C3: [init.sql] declares no key on [tracking]: the same record, for
    the same match, frame and player, is stored twice. *)
Theorem tracking_stores_duplicates :
  let r := [Text "m1"; Integer 1; Timestamptz 0; Text "home"; Text "p7";
            NULL; NULL; NULL; NULL; NULL] in
  let d1 := default fresh (exec_script "postgres" init_sql fresh) in
  exec_script "postgres" init_sql fresh = Some d1
  ∧ key_columns tracking = []
  ∧ tbl_rows <$> tables (after d1 [Insert "tracking" r; Insert "tracking" r])
                   !! "tracking"
    = Some [r; r].
Proof. split_and!; vm_compute; reflexivity. Qed.

(** C4, as the script has it: once [init.sql] has created [events],
    whatever is written afterwards, every row of [events] has a value of
    the declared type in each column, none of it NULL in [event_id],
    [match_id], [event_type], [start_time], [end_time], [start_frame] and
    [end_frame], and no two rows have the same [event_id].  Nothing
    relates the start of an event to its end or to the frames of a
    match. *)
Theorem events_rows_are_keyed user d0 d1 cs :
  tables d0 !! "events" = None →
  exec_script user init_sql d0 = Some d1 →
  ∃ T, tables (after d1 cs) !! "events" = Some T
     ∧ tbl_def T = events
     ∧ (∀ r, r ∈ tbl_rows T →
          row_ok events r = true
          ∧ ∀ name, name ∈ ["event_id"; "match_id"; "event_type"; "start_time";
                            "end_time"; "start_frame"; "end_frame"] →
              ∃ v, field (tbl_columns events) r name = Some v ∧ v ≠ NULL)
     ∧ (∀ i j r r',
          tbl_rows T !! i = Some r → tbl_rows T !! j = Some r' →
          field (tbl_columns events) r "event_id"
          = field (tbl_columns events) r' "event_id" →
          i = j).
Proof.
  intros Hnone He. pose proof (init_sql_events user d0 d1 Hnone He) as H1.
  destruct (after_table d1 cs _ _ H1) as (T & HT & Hdef & Hs). simpl in Hdef.
  specialize (Hs (sound_empty _ _)).
  exists T. split_and!; try done.
  - intros r Hr. destruct Hs as [Hrows _]. rewrite Forall_forall in Hrows.
    specialize (Hrows r Hr). rewrite Hdef in Hrows. split; [done|].
    intros name Hn.
    assert (∃ c, c ∈ tbl_columns events ∧ col_name c = name
                 ∧ not_null events c = true) as (c & Hc & <- & Hnn).
    { assert (forallb (fun name =>
                existsb (fun c => bool_decide (col_name c = name)
                                  && not_null events c) (tbl_columns events))
                ["event_id"; "match_id"; "event_type"; "start_time";
                 "end_time"; "start_frame"; "end_frame"] = true) as Hall
        by (vm_compute; reflexivity).
      rewrite forallb_forall in Hall.
      apply list_elem_of_In, Hall, existsb_exists in Hn
        as (c & Hc%list_elem_of_In & [Hcn%bool_decide_eq_true Hnn]%andb_true_iff).
      by exists c. }
    destruct (values_ok_field events _ r c Hrows Hc) as (v & Hv & _ & Hv').
    { apply (bool_decide_eq_true_1 _). vm_compute. reflexivity. }
    exists v. split; [done|]. intros ->. by specialize (Hv' Hnn).
  - intros i j r r' Hi Hj Heq.
    apply (sound_key_unique T i j r r'); rewrite ?Hdef; try done.
    unfold key_of. change (key_columns events) with ["event_id"].
    assert (∀ f : string → option datum,
              mapM f ["event_id"] = y ← f "event_id"; Some [y]) as Hm.
    { intros f. simpl. by destruct (f _). }
    by rewrite !Hm, Heq.
Qed.

(** A row of [events] that ends before it starts, in time and in frames,
    is stored. *)
Lemma events_stores_reversed_span :
  let r := [Text "e1"; Text "m1"; Text "pass";
            Timestamptz 2000000; Timestamptz 1000000;
            Integer 10; Integer 5; NULL; NULL; NULL] in
  let d1 := default fresh (exec_script "postgres" init_sql fresh) in
  exec_script "postgres" init_sql fresh = Some d1
  ∧ tbl_rows <$> tables (after d1 [Insert "events" r]) !! "events" = Some [r]
  ∧ field (tbl_columns events) r "start_frame" = Some (Integer 10)
  ∧ field (tbl_columns events) r "end_frame" = Some (Integer 5)
  ∧ field (tbl_columns events) r "start_time" = Some (Timestamptz 2000000)
  ∧ field (tbl_columns events) r "end_time" = Some (Timestamptz 1000000).
Proof. split_and!; vm_compute; reflexivity. Qed.

Lemma events_rows_are_keyed_witness :
  let r := [Text "e1"; Text "m1"; Text "pass";
            Timestamptz 1000000; Timestamptz 2000000;
            Integer 5; Integer 10; NULL; NULL; NULL] in
  let d1 := default fresh (exec_script "postgres" init_sql fresh) in
  tables fresh !! "events" = None
  ∧ exec_script "postgres" init_sql fresh = Some d1
  ∧ ∃ T, tables (after d1 [Insert "events" r; Insert "events" r]) !! "events"
         = Some T
         ∧ tbl_def T = events.
Proof.
  split; [reflexivity|]. split; [vm_compute; reflexivity|].
  destruct (events_rows_are_keyed "postgres" fresh
              (default fresh (exec_script "postgres" init_sql fresh))
              [Insert "events" [Text "e1"; Text "m1"; Text "pass";
                                Timestamptz 1000000; Timestamptz 2000000;
                                Integer 5; Integer 10; NULL; NULL; NULL];
               Insert "events" [Text "e1"; Text "m1"; Text "pass";
                                Timestamptz 1000000; Timestamptz 2000000;
                                Integer 5; Integer 10; NULL; NULL; NULL]])
    as (T & HT & Hdef & _).
  - reflexivity.
  - vm_compute; reflexivity.
  - exists T. split; [exact HT|exact Hdef].
Defined.

(** ** Running a script again *)

Lemma exec_script_role_exists user ss d d' n :
  exec_script user ss d = Some d' →
  role_exists d n = true → role_exists d' n = true.
Proof.
  revert d. induction ss as [|s ss IH]; intros d He Hn; simpl in He.
  - by simplify_eq.
  - destruct (exec user s d) as [d2|] eqn:Hs; [|done].
    eapply IH; [done|]. by eapply exec_role_exists.
Qed.

Lemma apply_roles d c : roles (apply d c) = roles d.
Proof.
  unfold apply. destruct (exec_command c d) as [d'|] eqn:He; [|done]. simpl.
  destruct c as [user t|t r|t i r|t i]; simpl in He.
  - destruct (tables d !! tbl_name t); [done|].
    destruct (_ && _); by simplify_eq.
  - destruct (tables d !! t) as [T|]; [|done]. simpl in He.
    destruct (_ && _); by simplify_eq.
  - destruct (tables d !! t) as [T|]; [|done]. simpl in He.
    destruct (tbl_rows T !! i); [|done]. simpl in He.
    destruct (_ && _); by simplify_eq.
  - destruct (tables d !! t) as [T|]; [|done]. simpl in He.
    destruct (tbl_rows T !! i); [|done]. simpl in He.
    destruct (release_ok _ _ _ _); by simplify_eq.
Qed.

Lemma after_roles d cs : roles (after d cs) = roles d.
Proof.
  revert d. induction cs as [|c cs IH]; intros d; [done|].
  unfold after. simpl. fold (after (apply d c) cs).
  by rewrite IH, apply_roles.
Qed.

(** Once a script has run, the read-only role exists. *)
Lemma script_creates_role script user d0 d1 :
  script = init_sql ∨ script = init_v3 →
  exec_script user script d0 = Some d1 →
  role_exists d1 ai_agent_readonly = true.
Proof.
  assert (∀ pre post,
            exec_script user (pre ++ security ++ post) d0 = Some d1 →
            role_exists d1 ai_agent_readonly = true) as Hgen.
  { intros pre post
      (d & _ & (d2 & Hsec & Hpost)%exec_script_app)%exec_script_app.
    eapply exec_script_role_exists; [exact Hpost|].
    unfold security in Hsec.
    apply (proj1 (exec_script_app user
                    [CREATE_ROLE ai_agent_readonly false None] _ d d2))
      in Hsec as (d3 & Hc & Hrest).
    eapply exec_script_role_exists; [exact Hrest|].
    simpl in Hc. destruct (role_exists d ai_agent_readonly); [done|].
    injection Hc as <-.
    apply (role_exists_add_role_new
             {| rol_name := ai_agent_readonly; rol_can_login := false;
                rol_password := None |}). }
  intros [-> | ->]; apply Hgen.
Qed.

(** X7: neither script can run twice, and neither can run after the
    other: on a database where one of them has run, whatever was written
    since, each of them stops with an error, at the latest at its CREATE
    ROLE, which finds the role.  The IF NOT EXISTS of [init.sql] covers
    its two tables only. *)
Theorem scripts_run_once script script' user user' d0 d1 cs :
  script = init_sql ∨ script = init_v3 →
  script' = init_sql ∨ script' = init_v3 →
  exec_script user script d0 = Some d1 →
  exec_script user' script' (after d1 cs) = None
  ∧ exec user' (CREATE_ROLE ai_agent_readonly false None) (after d1 cs) = None.
Proof.
  intros Hs Hs' He.
  pose proof (script_creates_role script user d0 d1 Hs He) as Hr.
  assert (role_exists (after d1 cs) ai_agent_readonly = true) as Hr'.
  { unfold role_exists in *. by rewrite after_roles. }
  split; [|simpl; by rewrite Hr'].
  assert (∀ pre post,
            exec_script user' (pre ++ security ++ post) (after d1 cs) = None)
    as Hgen.
  { intros pre post.
    destruct (exec_script user' (pre ++ security ++ post) (after d1 cs))
      as [d'|] eqn:He'; [|done].
    apply exec_script_app in He' as (d & Hpre & (d2 & Hsec & _)%exec_script_app).
    apply security_inv in Hsec as [Hnew _].
    eapply exec_script_role_exists in Hpre; [|exact Hr']. congruence. }
  destruct Hs' as [-> | ->]; apply Hgen.
Qed.

(** X8: [init.sql] leaves the tables that it finds as they are, with
    their rows: every table of the database it starts from is there,
    unchanged, when it ends. *)
Theorem init_sql_keeps_tables user d0 d1 t T :
  exec_script user init_sql d0 = Some d1 →
  tables d0 !! t = Some T →
  tables d1 !! t = Some T.
Proof.
  intros (d & Hd & _ & Htab & _)%secured_init_sql Ht. rewrite Htab.
  cbn [exec_script] in Hd.
  destruct (exec user (CREATE_TABLE true tracking) d0) as [da|] eqn:H1; [|done].
  cbn [mbind option_bind] in Hd.
  destruct (exec user (CREATE_TABLE true events) da) as [db|] eqn:H2; [|done].
  cbn [mbind option_bind] in Hd. injection Hd as ->.
  assert (tables da !! t = Some T) as Hda.
  { apply create_table_inv in H1 as [[_ ->]|[Hn ->]]; [done|].
    rewrite lookup_insert_ne; [done|]. intros Heq. congruence. }
  apply create_table_inv in H2 as [[_ ->]|[Hn ->]]; [done|].
  rewrite lookup_insert_ne; [done|]. intros Heq. congruence.
Qed.

(** ** The tables of the V3 script *)

Lemma named_not_null t names r :
  row_ok t r = true →
  NoDup (col_name <$> tbl_columns t) →
  forallb (fun name =>
    existsb (fun c => bool_decide (col_name c = name) && not_null t c)
      (tbl_columns t)) names = true →
  ∀ name, name ∈ names →
    ∃ v, field (tbl_columns t) r name = Some v
         ∧ v ≠ NULL
         ∧ ∃ c, c ∈ tbl_columns t ∧ col_name c = name
                ∧ has_type (col_type c) v = true.
Proof.
  intros Hr Hnd Hall name Hn. rewrite forallb_forall in Hall.
  apply list_elem_of_In, Hall, existsb_exists in Hn
    as (c & Hc%list_elem_of_In & [Hcn%bool_decide_eq_true Hnn]%andb_true_iff).
  subst name.
  destruct (values_ok_field t _ r c Hr Hc Hnd) as (v & Hv & Hty & Hv').
  exists v. split_and!; [done| |by exists c].
  intros ->. by specialize (Hv' Hnn).
Qed.

(** The V3 script creates its two tables as it declares them: it fails
    when one of them is there already. *)
Lemma init_v3_tables user d0 d1 :
  exec_script user init_v3 d0 = Some d1 →
  tables d1 !! "match_metadata"
  = Some {| tbl_def := match_metadata; tbl_owner := user; tbl_rows := [] |}
  ∧ tables d1 !! "tracking_data"
    = Some {| tbl_def := tracking_data; tbl_owner := user; tbl_rows := [] |}.
Proof.
  intros (d & Hd & _ & _ & Htab & _)%secured_init_v3. rewrite Htab.
  cbn [exec_script exec] in Hd.
  change (tbl_name match_metadata) with "match_metadata" in Hd.
  destruct (tables d0 !! "match_metadata") eqn:Hm; [done|].
  destruct (_ && _); [|done]. cbn [mbind option_bind with_tables tables] in Hd.
  change (tbl_name tracking_data) with "tracking_data" in Hd.
  destruct (_ !! "tracking_data") eqn:Ht; [done|].
  destruct (_ && _); [|done]. cbn [mbind option_bind] in Hd.
  injection Hd as <-. cbn [with_tables tables]. split.
  - rewrite lookup_insert_ne by done. apply lookup_insert_eq.
  - apply lookup_insert_eq.
Qed.

(** X9: under the V3 script, whatever is written afterwards, every row of
    [tracking_data] has a value of the declared type in each column, none
    of it NULL in [match_id], [period], [frame] and [timestamp_iso], and
    no two rows have the same [match_id] and the same [frame]. *)
Theorem tracking_data_rows_are_keyed user d0 d1 cs :
  exec_script user init_v3 d0 = Some d1 →
  ∃ T, tables (after d1 cs) !! "tracking_data" = Some T
     ∧ tbl_def T = tracking_data
     ∧ (∀ r, r ∈ tbl_rows T →
          row_ok tracking_data r = true
          ∧ ∀ name, name ∈ ["match_id"; "period"; "frame"; "timestamp_iso"] →
              ∃ v, field (tbl_columns tracking_data) r name = Some v
                   ∧ v ≠ NULL)
     ∧ (∀ i j r r',
          tbl_rows T !! i = Some r → tbl_rows T !! j = Some r' →
          field (tbl_columns tracking_data) r "match_id"
          = field (tbl_columns tracking_data) r' "match_id" →
          field (tbl_columns tracking_data) r "frame"
          = field (tbl_columns tracking_data) r' "frame" →
          i = j).
Proof.
  intros [_ H1]%init_v3_tables.
  destruct (after_table d1 cs _ _ H1) as (T & HT & Hdef & Hs). simpl in Hdef.
  specialize (Hs (sound_empty _ _)).
  exists T. split_and!; try done.
  - intros r Hr. destruct Hs as [Hrows _]. rewrite Forall_forall in Hrows.
    specialize (Hrows r Hr). rewrite Hdef in Hrows. split; [done|].
    intros name Hn.
    destruct (named_not_null tracking_data
                ["match_id"; "period"; "frame"; "timestamp_iso"] r Hrows)
      with (name := name) as (v & Hv & Hnn & _); try done.
    + apply (bool_decide_eq_true_1 _). vm_compute. reflexivity.
    + by exists v.
  - intros i j r r' Hi Hj Hm Hf.
    apply (sound_key_unique T i j r r'); rewrite ?Hdef; try done.
    unfold key_of. change (key_columns tracking_data) with ["match_id"; "frame"].
    assert (∀ f : string → option datum,
              mapM f ["match_id"; "frame"]
              = m ← f "match_id"; n ← f "frame"; Some [m; n]) as Hk.
    { intros f. simpl. destruct (f "match_id"); [|done]. simpl.
      by destruct (f "frame"). }
    by rewrite !Hk, Hm, Hf.
Qed.

(** ** The reference from [tracking_data] to [match_metadata] *)

Lemma tracking_data_match_id r :
  row_ok tracking_data r = true →
  ∃ s, field (tbl_columns tracking_data) r "match_id" = Some (Text s).
Proof.
  destruct r as [|v r]; [done|]. unfold row_ok. simpl.
  destruct v; try done. eauto.
Qed.

Lemma match_metadata_match_id r :
  row_ok match_metadata r = true →
  ∃ s, field (tbl_columns match_metadata) r "match_id" = Some (Text s).
Proof.
  destruct r as [|v r]; [done|]. unfold row_ok. simpl.
  change (not_null match_metadata (col_pk "match_id" TEXT)) with true.
  destruct v; try done. eauto.
Qed.

Lemma text_eqb s v : datum_eqb (Text s) v = true ↔ v = Text s.
Proof.
  destruct v; simpl; try (split; done).
  rewrite bool_decide_eq_true. naive_solver.
Qed.

Lemma text_eqb' s v : datum_eqb v (Text s) = true ↔ v = Text s.
Proof. by rewrite datum_eqb_sym, text_eqb. Qed.

(** What the REFERENCES check of an insertion or update has found. *)
Lemma references_met_match d r s M :
  references_met d tracking_data r = true →
  field (tbl_columns tracking_data) r "match_id" = Some (Text s) →
  tables d !! "match_metadata" = Some M →
  tbl_def M = match_metadata →
  ∃ r', r' ∈ tbl_rows M
        ∧ field (tbl_columns match_metadata) r' "match_id" = Some (Text s).
Proof.
  unfold references_met. intros Hall Hf HM Hdef.
  rewrite forallb_forall in Hall.
  specialize (Hall (hd (col "" TEXT) (tbl_columns tracking_data))).
  cbn [tracking_data tbl_columns hd col_references col_name] in Hall.
  change (field _ r "match_id") with (field (tbl_columns tracking_data) r "match_id") in Hall.
  rewrite Hf, HM, Hdef in Hall. cbn [is_null orb] in Hall.
  specialize (Hall (or_introl eq_refl)).
  apply existsb_exists in Hall as (r' & Hr'%list_elem_of_In & Hv).
  exists r'. split; [done|].
  destruct (field (tbl_columns match_metadata) r' "match_id") as [v'|]; [|done].
  by apply text_eqb' in Hv as ->.
Qed.

(** The [match_id] of a row of [tracking_data] is among the values that
    refer to [match_metadata]. *)
Lemma referrers_match d T r v :
  tables d !! "tracking_data" = Some T →
  tbl_def T = tracking_data →
  r ∈ tbl_rows T →
  field (tbl_columns tracking_data) r "match_id" = Some v →
  v ∈ referrers d "match_metadata" "match_id".
Proof.
  intros HT Hdef Hr Hf. unfold referrers.
  apply list_elem_of_bind. exists ("tracking_data", T). split.
  - apply list_elem_of_bind.
    exists (hd (col "" TEXT) (tbl_columns tracking_data)). split.
    + cbn [snd]. rewrite Hdef.
      cbn [tracking_data tbl_columns hd col_references col_name].
      rewrite decide_True by done. apply list_elem_of_omap. by exists r.
    + cbn [snd]. rewrite Hdef. by left.
  - by apply elem_of_map_to_list.
Qed.

(** What the check of a deletion or update of a row of [match_metadata]
    has found, when a row of [tracking_data] refers to the row. *)
Lemma release_ok_match d old new s :
  release_ok d match_metadata old new = true →
  field (tbl_columns match_metadata) old "match_id" = Some (Text s) →
  Text s ∈ referrers d "match_metadata" "match_id" →
  ∃ r, new = Some r
       ∧ field (tbl_columns match_metadata) r "match_id" = Some (Text s).
Proof.
  unfold release_ok. intros Hall Hf Hin.
  rewrite forallb_forall in Hall.
  specialize (Hall (hd (col "" TEXT) (tbl_columns match_metadata))).
  cbn [match_metadata tbl_columns hd col_pk col_name tbl_name] in Hall.
  change (field _ old "match_id")
    with (field (tbl_columns match_metadata) old "match_id") in Hall.
  rewrite Hf in Hall. specialize (Hall (or_introl eq_refl)).
  apply orb_true_iff in Hall as [Hno|Hnew].
  - apply negb_true_iff, not_true_iff_false in Hno. destruct Hno.
    apply existsb_exists. exists (Text s). split; [by apply list_elem_of_In|].
    by apply text_eqb.
  - destruct new as [r|]; [|done]. exists r. split; [done|].
    change (field _ r "match_id")
      with (field (tbl_columns match_metadata) r "match_id") in Hnew.
    destruct (field (tbl_columns match_metadata) r "match_id") as [v'|]; [|done].
    by apply text_eqb in Hnew as ->.
Qed.

(** What a command that succeeds does to the rows of a table, and what
    it has checked. *)
Lemma exec_command_rows c d d' t T :
  exec_command c d = Some d' →
  tables d !! t = Some T →
  ∃ T', tables d' !! t = Some T'
    ∧ tbl_def T' = tbl_def T
    ∧ match c with
      | Create _ _ => tbl_rows T' = tbl_rows T
      | Insert t' r =>
        if decide (t' = t)
        then tbl_rows T' = tbl_rows T ++ [r]
             ∧ references_met d (tbl_def T) r = true
        else tbl_rows T' = tbl_rows T
      | Update t' i r =>
        if decide (t' = t)
        then tbl_rows T' = <[i:=r]> (tbl_rows T)
             ∧ references_met d (tbl_def T) r = true
             ∧ ∃ old, tbl_rows T !! i = Some old
                      ∧ release_ok d (tbl_def T) old (Some r) = true
        else tbl_rows T' = tbl_rows T
      | Delete t' i =>
        if decide (t' = t)
        then tbl_rows T' = delete i (tbl_rows T)
             ∧ ∃ old, tbl_rows T !! i = Some old
                      ∧ release_ok d (tbl_def T) old None = true
        else tbl_rows T' = tbl_rows T
      end.
Proof.
  intros He Ht.
  destruct c as [user t'|t' r|t' i r|t' i]; simpl in He.
  - destruct (tables d !! tbl_name t') eqn:Ht'; [done|].
    destruct (_ && _); [|done]. simplify_eq. simpl.
    exists T. rewrite lookup_insert_ne; [done|]. intros Heq. congruence.
  - destruct (tables d !! t') as [T0|] eqn:Ht'; [|done]. simpl in He.
    destruct (row_ok _ _ && key_free _ _ _ && _) eqn:Hc; [|done].
    simplify_eq. simpl. apply andb_true_iff in Hc as [_ Hm].
    destruct (decide (t' = t)) as [->|].
    + rewrite lookup_insert_eq. simplify_eq. by eexists.
    + rewrite lookup_insert_ne by done. by exists T.
  - destruct (tables d !! t') as [T0|] eqn:Ht'; [|done]. simpl in He.
    destruct (tbl_rows T0 !! i) as [old|] eqn:Hi; [|done]. simpl in He.
    destruct (row_ok _ _ && key_free _ _ _ && _ && _) eqn:Hc; [|done].
    simplify_eq. simpl.
    apply andb_true_iff in Hc as [[_ Hm]%andb_true_iff Hrel].
    destruct (decide (t' = t)) as [->|].
    + rewrite lookup_insert_eq. simplify_eq. eexists. split_and!; eauto.
    + rewrite lookup_insert_ne by done. by exists T.
  - destruct (tables d !! t') as [T0|] eqn:Ht'; [|done]. simpl in He.
    destruct (tbl_rows T0 !! i) as [old|] eqn:Hi; [|done]. simpl in He.
    destruct (release_ok _ _ _ _) eqn:Hrel; [|done]. simplify_eq. simpl.
    destruct (decide (t' = t)) as [->|].
    + rewrite lookup_insert_eq. simplify_eq. eexists. split_and!; eauto.
    + rewrite lookup_insert_ne by done. by exists T.
Qed.

Lemma elem_of_insert_inv {A} (l : list A) i x y :
  y ∈ <[i:=x]> l → y = x ∨ y ∈ l.
Proof.
  intros (j & Hj)%list_elem_of_lookup.
  apply list_lookup_insert_Some in Hj as [(_ & -> & _)|[_ Hj]]; [by left|].
  right. apply list_elem_of_lookup. eauto.
Qed.

Lemma elem_of_delete_ne {A} (l : list A) i j x :
  l !! j = Some x → j ≠ i → x ∈ delete i l.
Proof.
  intros Hj Hij. apply list_elem_of_lookup.
  destruct (decide (j < i)%nat) as [Hlt|Hge].
  - exists j. by rewrite list_lookup_delete_lt.
  - exists (pred j). rewrite list_lookup_delete_ge by lia.
    by replace (S (pred j)) with j by lia.
Qed.

(** A command keeps the two tables of the V3 script, with what their
    declarations guarantee, and keeps every row of [tracking_data] on a
    match that exists. *)
Lemma apply_refers d c T M :
  tables d !! "tracking_data" = Some T → tbl_def T = tracking_data → sound T →
  tables d !! "match_metadata" = Some M → tbl_def M = match_metadata → sound M →
  refers T M →
  ∃ T' M',
    tables (apply d c) !! "tracking_data" = Some T'
    ∧ tbl_def T' = tracking_data ∧ sound T'
    ∧ tables (apply d c) !! "match_metadata" = Some M'
    ∧ tbl_def M' = match_metadata ∧ sound M'
    ∧ refers T' M'.
Proof.
  intros HT HdT HsT HM HdM HsM Href.
  destruct (apply_table d c _ _ HT) as (T' & HT' & HdT' & HsT').
  destruct (apply_table d c _ _ HM) as (M' & HM' & HdM' & HsM').
  exists T', M'. rewrite HdT', HdM'. split_and!; auto.
  unfold apply in HT', HM'.
  destruct (exec_command c d) as [d'|] eqn:He; simpl in HT', HM';
    [|by simplify_eq].
  destruct (exec_command_rows c d d' _ _ He HT) as (T2 & HT2 & _ & HrT).
  destruct (exec_command_rows c d d' _ _ He HM) as (M2 & HM2 & _ & HrM).
  simplify_eq. rewrite HdT in HrT. rewrite HdM in HrM.
  assert (∀ r, r ∈ tbl_rows T' →
            ∃ s, field (tbl_columns tracking_data) r "match_id" = Some (Text s))
    as Htext.
  { intros r Hr. apply tracking_data_match_id.
    destruct (HsT' HsT) as [Hrows _]. rewrite Forall_forall in Hrows.
    rewrite <- HdT, <- HdT'. by apply Hrows. }
  intros r Hr. destruct (Htext r Hr) as [s Hs]. exists s. split; [done|].
  assert (r ∈ tbl_rows T →
          ∃ r', r' ∈ tbl_rows M
                ∧ field (tbl_columns match_metadata) r' "match_id" = Some (Text s))
    as Hold.
  { intros Hr0. destruct (Href r Hr0) as (s' & Hs' & Hr').
    rewrite Hs in Hs'. by injection Hs' as <-. }
  destruct c as [user t|t r0|t i r0|t i].
  - rewrite HrT in Hr. rewrite HrM. auto.
  - destruct (decide (t = "tracking_data")) as [->|];
      destruct (decide (_ = "match_metadata")) as [Heq|]; try done.
    + destruct HrT as [HrT Hmet]. rewrite HrM. rewrite HrT in Hr.
      apply elem_of_app in Hr as [Hr| ->%list_elem_of_singleton]; [auto|].
      by eapply references_met_match.
    + subst t. destruct HrM as [HrM _]. rewrite HrM. rewrite HrT in Hr.
      destruct (Hold Hr) as (r' & Hr' & Hf'). exists r'. split; [|done].
      apply elem_of_app. by left.
    + rewrite HrT in Hr. rewrite HrM. auto.
  - destruct (decide (t = "tracking_data")) as [->|];
      destruct (decide (_ = "match_metadata")) as [Heq|]; try done.
    + destruct HrT as (HrT & Hmet & _). rewrite HrM. rewrite HrT in Hr.
      apply elem_of_insert_inv in Hr as [->|Hr]; [|auto].
      by eapply references_met_match.
    + subst t. destruct HrM as (HrM & _ & old & Hold' & Hrel).
      rewrite HrM. rewrite HrT in Hr.
      destruct (Hold Hr) as (r' & (j & Hj)%list_elem_of_lookup & Hf').
      destruct (decide (j = i)) as [->|Hji].
      * assert (r' = old) as -> by congruence.
        destruct (release_ok_match d old (Some r0) s Hrel Hf')
          as (r1 & [= <-] & Hf1); [by eapply referrers_match|].
        exists r0. split; [|done]. apply list_elem_of_lookup. exists i.
        apply list_lookup_insert_eq. by eapply lookup_lt_Some.
      * exists r'. split; [|done]. apply list_elem_of_lookup. exists j.
        by rewrite list_lookup_insert_ne.
    + rewrite HrT in Hr. rewrite HrM. auto.
  - destruct (decide (t = "tracking_data")) as [->|];
      destruct (decide (_ = "match_metadata")) as [Heq|]; try done.
    + destruct HrT as (HrT & _). rewrite HrM. rewrite HrT in Hr.
      apply list_elem_of_delete_inv in Hr. auto.
    + subst t. destruct HrM as (HrM & old & Hold' & Hrel).
      rewrite HrM. rewrite HrT in Hr.
      destruct (Hold Hr) as (r' & (j & Hj)%list_elem_of_lookup & Hf').
      destruct (decide (j = i)) as [->|Hji].
      * assert (r' = old) as -> by congruence.
        destruct (release_ok_match d old None s Hrel Hf')
          as (r1 & [=] & _). by eapply referrers_match.
      * exists r'. split; [|done]. by eapply elem_of_delete_ne.
    + rewrite HrT in Hr. rewrite HrM. auto.
Qed.

Lemma after_refers d cs T M :
  tables d !! "tracking_data" = Some T → tbl_def T = tracking_data → sound T →
  tables d !! "match_metadata" = Some M → tbl_def M = match_metadata → sound M →
  refers T M →
  ∃ T' M',
    tables (after d cs) !! "tracking_data" = Some T'
    ∧ tbl_def T' = tracking_data ∧ sound T'
    ∧ tables (after d cs) !! "match_metadata" = Some M'
    ∧ tbl_def M' = match_metadata ∧ sound M'
    ∧ refers T' M'.
Proof.
  revert d T M. induction cs as [|c cs IH]; intros d T M HT HdT HsT HM HdM HsM Href.
  - exists T, M. by split_and!.
  - destruct (apply_refers d c T M) as (T1 & M1 & ? & ? & ? & ? & ? & ? & ?);
      try done.
    unfold after. simpl. fold (after (apply d c) cs). by apply (IH _ T1 M1).
Qed.

(** X10: under the V3 script, whatever is written afterwards, every row
    of [tracking_data] names a match that [match_metadata] has: no row of
    tracking data is stored for a match that is not described, and no
    description of a match goes, or changes its [match_id], while tracking
    data refers to it.  A [match_id] names one row of [match_metadata]. *)
Theorem tracking_data_refers_to_a_match user d0 d1 cs :
  exec_script user init_v3 d0 = Some d1 →
  ∃ T M, tables (after d1 cs) !! "tracking_data" = Some T
       ∧ tables (after d1 cs) !! "match_metadata" = Some M
       ∧ refers T M
       ∧ ∀ i j r r',
           tbl_rows M !! i = Some r → tbl_rows M !! j = Some r' →
           field (tbl_columns match_metadata) r "match_id"
           = field (tbl_columns match_metadata) r' "match_id" →
           i = j.
Proof.
  intros [HM HT]%init_v3_tables.
  destruct (after_refers d1 cs _ _ HT eq_refl (sound_empty _ _)
              HM eq_refl (sound_empty _ _))
    as (T & M & HT' & HdT & HsT & HM' & HdM & HsM & Href).
  { by intros r ?%elem_of_nil. }
  exists T, M. split_and!; try done.
  intros i j r r' Hi Hj Heq.
  apply (sound_key_unique M i j r r'); rewrite ?HdM; try done.
  unfold key_of. change (key_columns match_metadata) with ["match_id"].
  assert (∀ f : string → option datum,
            mapM f ["match_id"] = y ← f "match_id"; Some [y]) as Hk.
  { intros f. simpl. by destruct (f _). }
  by rewrite !Hk, Heq.
Qed.

(** ** The user of the agent *)

(** X11: under the V3 script, which creates [ai_user] itself, every
    privilege that [ai_user] holds, of its own or through a role, is
    CONNECT on the database, USAGE on the schema or SELECT on a table, or
    is one that PUBLIC has, or is on a table that [ai_user] or the
    read-only role owns, whatever tables are created and whatever rows are
    written afterwards; and it holds SELECT on every table that existed
    when the script ended. *)
Theorem ai_user_reads_only user d0 d1 cs :
  wf d0 →
  exec_script user init_v3 d0 = Some d1 →
  let d := after d1 cs in
  (∀ o p, p ∈ held d ai_user o →
          at_most_reads d [ai_user; ai_agent_readonly] o p)
  ∧ (∀ t, is_Some (tables d1 !! t) → SELECT ∈ held d ai_user (Table t)).
Proof.
  intros Hwf0 (d & Hd & Hnu & Hsec)%secured_init_v3 d'.
  assert (wf d) as Hwf by by eapply exec_script_wf.
  destruct (secured_after user d d1 cs Hwf Hsec) as (_ & _ & _ & Hinh).
  fold d' in Hinh.
  destruct Hwf as (Hwa & Hwd & Hwm).
  destruct Hsec as (Hnew & Htab & Hacl & Hdef & Hmem).
  destruct (after_grants d1 cs) as (Hd' & Hm' & extra & Ha' & Hx).
  fold d' in Hd', Hm', Ha'.
  assert (∀ e, e ∈ members d' → e.2 ≠ ai_agent_readonly) as Hleaf.
  { intros e. rewrite Hm', Hmem.
    intros [He| ->%list_elem_of_singleton]%elem_of_app; [|done].
    intros Heq. apply Hwm in He. congruence. }
  assert (∀ e, e ∈ members d' → e.2 = ai_user → e.1 = ai_agent_readonly)
    as Hone.
  { intros e. rewrite Hm', Hmem.
    intros [He| ->%list_elem_of_singleton]%elem_of_app; [|done].
    intros Heq. apply Hwm in He. congruence. }
  assert (∀ n r, inherits (members d') n ai_user r = true →
            r = ai_user ∨ r = ai_agent_readonly) as Hchain.
  { intros n r Hi. destruct n as [|n]; simpl in Hi.
    - rewrite orb_false_r in Hi. apply bool_decide_eq_true in Hi. by left.
    - apply orb_true_iff in Hi as [Hi%bool_decide_eq_true|Hi]; [by left|].
      apply existsb_exists in Hi
        as (e & He%list_elem_of_In & [He2%bool_decide_eq_true Hi]%andb_true_iff).
      rewrite (Hone e He He2), inherits_leaf in Hi by done.
      apply bool_decide_eq_true in Hi. by right. }
  split.
  - intros o p [(g & Hg & Hi & <- & <-)|[Hp|(t & T & -> & HT & Hi & _)]]%held_elem.
    + left. apply Hchain in Hi. rewrite Ha', Hacl in Hg.
      apply elem_of_app in Hg as [Hg|Hg].
      * apply elem_of_app in Hg as [Hg|Hg].
        -- apply Hwa in Hg. destruct Hi as [Hi|Hi]; rewrite Hi in Hg; congruence.
        -- apply elem_of_cons in Hg as [->|Hg]; [left; done|].
           apply elem_of_cons in Hg as [->|Hg]; [right; left; done|].
           apply list_elem_of_fmap in Hg as (e & -> & _).
           right; right. by eexists.
      * apply Hx in Hg as (dg & t & Hdg & _ & ->). simpl in *.
        rewrite Hdef in Hdg.
        apply elem_of_app in Hdg as [Hdg| ->%list_elem_of_singleton].
        -- apply Hwd in Hdg.
           destruct Hi as [Hi|Hi]; rewrite Hi in Hdg; congruence.
        -- right; right. by eexists.
    + by right; left.
    + right; right. exists t, T. split_and!; try done.
      apply Hchain in Hi as [-> | ->];
        [apply list_elem_of_here|apply list_elem_of_further, list_elem_of_here].
  - intros t [T HT]. apply (held_granted d' _ (select_grant t)); [|done].
    rewrite Ha', Hacl. apply elem_of_app. left. apply elem_of_app. right.
    do 2 apply list_elem_of_further. apply list_elem_of_fmap.
    exists (t, T). split; [done|]. apply elem_of_map_to_list. by rewrite <- Htab.
Qed.

(** ** The roles *)

Lemma create_table_roles user b t d d' :
  exec user (CREATE_TABLE b t) d = Some d' → roles d' = roles d.
Proof.
  simpl. destruct (tables d !! tbl_name t).
  - destruct b; [|done]. by intros [= <-].
  - destruct (_ && _); [|done]. by intros [= <-].
Qed.

Lemma security_roles user d d' :
  exec_script user security d = Some d' →
  roles d' = roles d ++ [readonly_role].
Proof.
  unfold security. cbn [exec_script exec].
  destruct (role_exists d ai_agent_readonly); [done|]. cbn [mbind option_bind].
  destruct (_ && _ && _); [|done]. cbn [mbind option_bind].
  destruct (_ && _ && _); [|done]. cbn [mbind option_bind].
  destruct (_ && _ && _); [|done]. cbn [mbind option_bind].
  destruct (_ && _ && _); [|done]. cbn [mbind option_bind].
  by intros [= <-].
Qed.

Lemma grant_role_roles user r m d d' :
  exec user (GRANT_ROLE r m) d = Some d' → roles d' = roles d.
Proof. simpl. destruct (_ && _ && _); [|done]. by intros [= <-]. Qed.

Lemma create_tables_roles user b t t' d d' :
  exec_script user [CREATE_TABLE b t; CREATE_TABLE b t'] d = Some d' →
  roles d' = roles d.
Proof.
  cbn [exec_script].
  destruct (exec user (CREATE_TABLE b t) d) as [d1|] eqn:H1; [|done].
  cbn [mbind option_bind].
  destruct (exec user (CREATE_TABLE b t') d1) as [d2|] eqn:H2; [|done].
  cbn [mbind option_bind]. intros [= <-].
  apply create_table_roles in H1, H2. congruence.
Qed.

Lemma user_exists_app d rs n :
  existsb (fun r => bool_decide (rol_name r = n) && rol_can_login r)
    (roles d ++ rs)
  = user_exists d n
    || existsb (fun r => bool_decide (rol_name r = n) && rol_can_login r) rs.
Proof. apply existsb_app. Qed.

(** The roles when [init.sql] has run: the read-only role is new, and
    [ai_user] is new unless a user of that name was there. *)
Lemma init_sql_roles user d0 d1 :
  exec_script user init_sql d0 = Some d1 →
  role_exists d0 ai_agent_readonly = false
  ∧ (user_exists d0 ai_user = false → role_exists d0 ai_user = false)
  ∧ roles d1 = roles d0 ++ readonly_role
                 :: (if user_exists d0 ai_user then [] else [ai_user_role]).
Proof.
  unfold init_sql.
  intros (d & Hd & (d' & Hs & Ht)%exec_script_app)%exec_script_app.
  apply create_tables_roles in Hd. pose proof (security_roles _ _ _ Hs) as Hr.
  apply security_inv in Hs as (Hnew & _).
  cbn [exec_script] in Ht.
  destruct (exec user (DO_IF_NO_USER _ _) d') as [d2|] eqn:Hdo; [|done].
  cbn [mbind option_bind] in Ht.
  destruct (exec user (GRANT_ROLE _ _) d2) as [d3|] eqn:Hg; [|done].
  cbn [mbind option_bind] in Ht. injection Ht as ->.
  apply grant_role_roles in Hg.
  assert (user_exists d' ai_user = user_exists d0 ai_user) as Hu.
  { unfold user_exists at 1. rewrite Hr, Hd, user_exists_app. simpl.
    by rewrite !orb_false_r. }
  assert (∀ n, role_exists d' n = false → role_exists d0 n = false) as Hmono.
  { intros n Hn. destruct (role_exists d0 n) eqn:H0; [|done].
    rewrite <- Hn. symmetry. apply role_exists_true. rewrite Hr, Hd.
    rewrite fmap_app. apply elem_of_app. left. by apply role_exists_true. }
  split; [unfold role_exists in *; by rewrite <- Hd|].
  cbn [exec] in Hdo. rewrite Hu in Hdo.
  destruct (user_exists d0 ai_user) eqn:Hu0.
  - injection Hdo as <-. split; [done|]. by rewrite Hg, Hr, Hd.
  - unfold create_ai_user in Hdo. cbn [exec] in Hdo.
    destruct (role_exists d' ai_user) eqn:Hru; [done|]. injection Hdo as <-.
    split; [intros _; by apply Hmono|].
    rewrite Hg. simpl. rewrite Hr, Hd. by rewrite <- app_assoc.
Qed.

(** The roles when the V3 script has run: both are new. *)
Lemma init_v3_roles user d0 d1 :
  exec_script user init_v3 d0 = Some d1 →
  role_exists d0 ai_agent_readonly = false
  ∧ roles d1 = roles d0 ++ [readonly_role; ai_user_role].
Proof.
  unfold init_v3.
  intros (d & Hd & (d' & Hs & Ht)%exec_script_app)%exec_script_app.
  apply create_tables_roles in Hd. pose proof (security_roles _ _ _ Hs) as Hr.
  apply security_inv in Hs as (Hnew & _).
  cbn [exec_script] in Ht.
  destruct (exec user create_ai_user d') as [d2|] eqn:Hdo; [|done].
  cbn [mbind option_bind] in Ht.
  destruct (exec user (GRANT_ROLE _ _) d2) as [d3|] eqn:Hg; [|done].
  cbn [mbind option_bind] in Ht. injection Ht as ->.
  apply grant_role_roles in Hg.
  split; [unfold role_exists in *; by rewrite <- Hd|].
  unfold create_ai_user in Hdo. cbn [exec] in Hdo.
  destruct (role_exists d' ai_user); [done|]. injection Hdo as <-.
  rewrite Hg. simpl. rewrite Hr, Hd. by rewrite <- app_assoc.
Qed.

Lemma user_exists_role_exists d n :
  user_exists d n = true → role_exists d n = true.
Proof.
  intros (r & Hr%list_elem_of_In & [Hn%bool_decide_eq_true _]%andb_true_iff)%existsb_exists.
  apply role_exists_true, list_elem_of_fmap. by exists r.
Qed.

(** X12: when either script has run, and whatever is written afterwards,
    the one role named [ai_agent_readonly] is the one that the script
    created, with NOLOGIN and no password: nobody can log in as the
    read-only role itself, and [ai_user] can log in. *)
Theorem who_can_log_in script user d0 d1 cs :
  script = init_sql ∨ script = init_v3 →
  exec_script user script d0 = Some d1 →
  let d := after d1 cs in
  (∀ r, r ∈ roles d → rol_name r = ai_agent_readonly → r = readonly_role)
  ∧ user_exists d ai_agent_readonly = false
  ∧ user_exists d ai_user = true.
Proof.
  intros Hs He d.
  assert (∃ rest, role_exists d0 ai_agent_readonly = false
                  ∧ roles d = roles d0 ++ readonly_role :: rest
                  ∧ (rest = [] ∧ user_exists d0 ai_user = true
                     ∨ rest = [ai_user_role])) as (rest & Hnew & Hr & Hrest).
  { subst d. rewrite after_roles. destruct Hs as [-> | ->].
    - apply init_sql_roles in He as (Hnew & _ & Hr).
      destruct (user_exists d0 ai_user).
      + exists []. split_and!; auto.
      + exists [ai_user_role]. split_and!; auto.
    - apply init_v3_roles in He as (Hnew & Hr).
      exists [ai_user_role]. split_and!; auto. }
  assert (∀ r, r ∈ rest → r = ai_user_role) as Hrest'.
  { intros r Hin. destruct Hrest as [[-> _]| ->].
    - by apply elem_of_nil in Hin.
    - by apply list_elem_of_singleton in Hin. }
  split_and!.
  - intros r Hin Hn. rewrite Hr in Hin.
    apply elem_of_app in Hin as [Hin|Hin].
    + assert (role_exists d0 ai_agent_readonly = true); [|congruence].
      apply role_exists_true, list_elem_of_fmap. by exists r.
    + apply elem_of_cons in Hin as [->|Hin]; [done|].
      apply Hrest' in Hin as ->. done.
  - unfold user_exists. rewrite Hr, user_exists_app. apply orb_false_iff. split.
    + destruct (user_exists d0 ai_agent_readonly) eqn:Hu; [|done].
      apply user_exists_role_exists in Hu. congruence.
    + simpl. destruct Hrest as [[-> _]| ->]; done.
  - unfold user_exists. rewrite Hr, user_exists_app. apply orb_true_iff.
    destruct Hrest as [[-> Hu]| ->]; [by left|by right].
Qed.

(** X13: the DO block of [init.sql] looks for [ai_user] among the roles
    that can log in.  When a role of that name exists that cannot log in,
    the block tries to create the user, and the script stops with an
    error. *)
Theorem init_sql_needs_a_login_user user d0 :
  role_exists d0 ai_user = true →
  user_exists d0 ai_user = false →
  exec_script user init_sql d0 = None.
Proof.
  intros Hr Hu. destruct (exec_script user init_sql d0) as [d1|] eqn:He; [|done].
  apply init_sql_roles in He as (_ & Hno & _). specialize (Hno Hu). congruence.
Qed.

(** ** The table [tracking] of [init.sql] *)

Lemma init_sql_tracking user d0 d1 :
  tables d0 !! "tracking" = None →
  exec_script user init_sql d0 = Some d1 →
  tables d1 !! "tracking"
  = Some {| tbl_def := tracking; tbl_owner := user; tbl_rows := [] |}.
Proof.
  intros Hnone (d & Hd & _ & Htab & _)%secured_init_sql. rewrite Htab.
  cbn [exec_script] in Hd.
  destruct (exec user (CREATE_TABLE true tracking) d0) as [da|] eqn:H1; [|done].
  cbn [mbind option_bind] in Hd.
  destruct (exec user (CREATE_TABLE true events) da) as [db|] eqn:H2; [|done].
  cbn [mbind option_bind] in Hd. injection Hd as ->.
  assert (tables da !! "tracking"
          = Some {| tbl_def := tracking; tbl_owner := user; tbl_rows := [] |})
    as Hda.
  { apply create_table_inv in H1 as [[[T HT] _]|[_ ->]].
    - simpl in HT. congruence.
    - apply lookup_insert_eq. }
  apply create_table_inv in H2 as [[_ ->]|[_ ->]]; [done|].
  by rewrite lookup_insert_ne.
Qed.

(** X14: once [init.sql] has created [tracking], whatever is written
    afterwards, every row of it has a value of the declared type in each
    of its ten columns, with a text in [match_id], a 32-bit integer in
    [frame] and a time in [timestamp_iso], none of them NULL. *)
Theorem tracking_rows_are_typed user d0 d1 cs :
  tables d0 !! "tracking" = None →
  exec_script user init_sql d0 = Some d1 →
  ∃ T, tables (after d1 cs) !! "tracking" = Some T
     ∧ tbl_def T = tracking
     ∧ ∀ r, r ∈ tbl_rows T →
         row_ok tracking r = true
         ∧ length r = 10%nat
         ∧ (∃ s, field (tbl_columns tracking) r "match_id" = Some (Text s))
         ∧ (∃ z, field (tbl_columns tracking) r "frame" = Some (Integer z)
                 ∧ (-2147483648 ≤ z ≤ 2147483647)%Z)
         ∧ (∃ t, field (tbl_columns tracking) r "timestamp_iso"
                 = Some (Timestamptz t)).
Proof.
  intros Hnone He. pose proof (init_sql_tracking user d0 d1 Hnone He) as H1.
  destruct (after_table d1 cs _ _ H1) as (T & HT & Hdef & Hs). simpl in Hdef.
  specialize (Hs (sound_empty _ _)).
  exists T. split_and!; try done.
  intros r Hr. destruct Hs as [Hrows _]. rewrite Forall_forall in Hrows.
  specialize (Hrows r Hr). rewrite Hdef in Hrows. split; [done|].
  assert (∀ d cs r, values_ok d cs r = true → length r = length cs) as Hlen.
  { clear. intros d cs. induction cs as [|c cs IH]; intros [|v r] H; try done.
    simpl in H. apply andb_true_iff in H as [_ H]. simpl. f_equal. auto. }
  pose proof (Hlen _ _ _ Hrows) as Hl.
  change (length (tbl_columns tracking)) with 10%nat in Hl. split; [done|].
  destruct r as [|v1 [|v2 [|v3 r]]]; try discriminate Hl.
  unfold row_ok in Hrows. simpl in Hrows.
  destruct v1; try done. destruct v2; try done.
  simpl in Hrows. apply andb_true_iff in Hrows as [Hz Hrows].
  rewrite andb_true_r in Hz.
  apply andb_true_iff in Hz as [?%Z.leb_le ?%Z.leb_le].
  destruct v3; try done.
  split_and!; eauto.
Qed.

(** ** The theorems at work on a fresh cluster *)

Lemma scripts_run_once_witness :
  let d1 := default fresh (exec_script "postgres" init_sql fresh) in
  exec_script "postgres" init_sql fresh = Some d1
  ∧ exec_script "postgres" init_sql d1 = None.
Proof.
  split; [vm_compute; reflexivity|].
  refine (proj1 (scripts_run_once init_sql init_sql "postgres" "postgres" fresh
                   (default fresh (exec_script "postgres" init_sql fresh)) []
                   (or_introl eq_refl) (or_introl eq_refl) _)).
  vm_compute; reflexivity.
Defined.

Lemma init_sql_keeps_tables_witness :
  let T := {| tbl_def := tracking; tbl_owner := "ingest";
              tbl_rows := [[Text "m1"; Integer 1; Timestamptz 0; NULL; NULL;
                            NULL; NULL; NULL; NULL; NULL]] |} in
  let d0 := with_tables (<["tracking" := T]> ∅) [] fresh in
  let d1 := default fresh (exec_script "postgres" init_sql d0) in
  exec_script "postgres" init_sql d0 = Some d1
  ∧ tables d0 !! "tracking" = Some T
  ∧ tables d1 !! "tracking" = Some T.
Proof.
  split; [vm_compute; reflexivity|]. split; [vm_compute; reflexivity|].
  refine (init_sql_keeps_tables "postgres"
            (with_tables
               (<["tracking" :=
                    {| tbl_def := tracking; tbl_owner := "ingest";
                       tbl_rows := [[Text "m1"; Integer 1; Timestamptz 0; NULL;
                                     NULL; NULL; NULL; NULL; NULL; NULL]] |}]> ∅)
               [] fresh)
            (default fresh
               (exec_script "postgres" init_sql
                  (with_tables
                     (<["tracking" :=
                          {| tbl_def := tracking; tbl_owner := "ingest";
                             tbl_rows := [[Text "m1"; Integer 1; Timestamptz 0;
                                           NULL; NULL; NULL; NULL; NULL; NULL;
                                           NULL]] |}]> ∅)
                     [] fresh)))
            "tracking" _ _ _);
    vm_compute; reflexivity.
Defined.

Lemma tracking_data_rows_are_keyed_witness :
  let d1 := default fresh (exec_script "postgres" init_v3 fresh) in
  let m := [Text "m1"; NULL; NULL; NULL; NULL; NULL; NULL] in
  let r := [Text "m1"; Integer 1; Integer 7; Timestamptz 0; NULL; NULL] in
  exec_script "postgres" init_v3 fresh = Some d1
  ∧ ∃ T, tables (after d1 [Insert "match_metadata" m; Insert "tracking_data" r;
                           Insert "tracking_data" r])
           !! "tracking_data" = Some T
         ∧ tbl_def T = tracking_data.
Proof.
  split; [vm_compute; reflexivity|].
  destruct (tracking_data_rows_are_keyed "postgres" fresh
              (default fresh (exec_script "postgres" init_v3 fresh))
              [Insert "match_metadata" [Text "m1"; NULL; NULL; NULL; NULL; NULL; NULL];
               Insert "tracking_data"
                 [Text "m1"; Integer 1; Integer 7; Timestamptz 0; NULL; NULL];
               Insert "tracking_data"
                 [Text "m1"; Integer 1; Integer 7; Timestamptz 0; NULL; NULL]])
    as (T & HT & Hdef & _).
  - vm_compute; reflexivity.
  - exists T. split; [exact HT|exact Hdef].
Defined.

Lemma tracking_data_refers_to_a_match_witness :
  let d1 := default fresh (exec_script "postgres" init_v3 fresh) in
  let m := [Text "m1"; NULL; NULL; NULL; NULL; NULL; NULL] in
  let r := [Text "m1"; Integer 1; Integer 7; Timestamptz 0; NULL; NULL] in
  exec_script "postgres" init_v3 fresh = Some d1
  ∧ ∃ T M, tables (after d1 [Insert "match_metadata" m; Insert "tracking_data" r;
                             Delete "match_metadata" 0])
             !! "tracking_data" = Some T
           ∧ refers T M.
Proof.
  split; [vm_compute; reflexivity|].
  destruct (tracking_data_refers_to_a_match "postgres" fresh
              (default fresh (exec_script "postgres" init_v3 fresh))
              [Insert "match_metadata" [Text "m1"; NULL; NULL; NULL; NULL; NULL; NULL];
               Insert "tracking_data"
                 [Text "m1"; Integer 1; Integer 7; Timestamptz 0; NULL; NULL];
               Delete "match_metadata" 0])
    as (T & M & HT & _ & Href & _).
  - vm_compute; reflexivity.
  - exists T, M. split; [exact HT|exact Href].
Defined.

Lemma ai_user_reads_only_witness :
  let d1 := default fresh (exec_script "postgres" init_v3 fresh) in
  exec_script "postgres" init_v3 fresh = Some d1
  ∧ ∀ o p, p ∈ held d1 ai_user o →
           at_most_reads d1 [ai_user; ai_agent_readonly] o p.
Proof.
  split; [vm_compute; reflexivity|].
  refine (proj1 (ai_user_reads_only "postgres" fresh
                   (default fresh (exec_script "postgres" init_v3 fresh)) []
                   wf_fresh _)).
  vm_compute; reflexivity.
Defined.

Lemma who_can_log_in_witness :
  let d1 := default fresh (exec_script "postgres" init_sql fresh) in
  exec_script "postgres" init_sql fresh = Some d1
  ∧ user_exists d1 ai_agent_readonly = false.
Proof.
  split; [vm_compute; reflexivity|].
  refine (proj1 (proj2 (who_can_log_in init_sql "postgres" fresh
                          (default fresh (exec_script "postgres" init_sql fresh))
                          [] (or_introl eq_refl) _))).
  vm_compute; reflexivity.
Defined.

Lemma init_sql_needs_a_login_user_witness :
  let d0 := add_role {| rol_name := ai_user; rol_can_login := false;
                        rol_password := None |} fresh in
  role_exists d0 ai_user = true
  ∧ user_exists d0 ai_user = false
  ∧ exec_script "postgres" init_sql d0 = None.
Proof.
  split; [vm_compute; reflexivity|]. split; [vm_compute; reflexivity|].
  refine (init_sql_needs_a_login_user "postgres"
            (add_role {| rol_name := ai_user; rol_can_login := false;
                         rol_password := None |} fresh) _ _);
    vm_compute; reflexivity.
Defined.

Lemma tracking_rows_are_typed_witness :
  let d1 := default fresh (exec_script "postgres" init_sql fresh) in
  let r := [Text "m1"; Integer 1; Timestamptz 0; NULL; NULL;
            NULL; NULL; NULL; NULL; NULL] in
  tables fresh !! "tracking" = None
  ∧ exec_script "postgres" init_sql fresh = Some d1
  ∧ ∃ T, tables (after d1 [Insert "tracking" r]) !! "tracking" = Some T
         ∧ tbl_def T = tracking.
Proof.
  split; [reflexivity|]. split; [vm_compute; reflexivity|].
  destruct (tracking_rows_are_typed "postgres" fresh
              (default fresh (exec_script "postgres" init_sql fresh))
              [Insert "tracking" [Text "m1"; Integer 1; Timestamptz 0; NULL; NULL;
                                  NULL; NULL; NULL; NULL; NULL]])
    as (T & HT & Hdef & _).
  - reflexivity.
  - vm_compute; reflexivity.
  - exists T. split; [exact HT|exact Hdef].
Defined.

End SqlTheory.
